(** * Structure-borne sound classification: data pre-processing

    A shallow embedding of the pre-processing cell of [train_model.ipynb]
    ([import_data], the per-file accumulation loop, the magnitude-spectrum
    step) and of the file table [flist], together with the properties of the
    segmentation and labelling pipeline; then the split into training and
    test rows and the decoding of the labels of the cells that follow.

    Modelling conventions.
    - Python integers are [Z]; array lengths are [nat].
    - A decoded sample is a rational number; the result of an arithmetic
      operation on samples is an [fval], which adds the two infinities and
      the not-a-number value that numpy's division produces for a zero
      divisor.  Rounding of binary64 arithmetic is not modelled.
    - A numpy array is an [ndarray]: its shape is part of the value, because
      [np.append] along an axis inspects it.
    - A Python exception is a value [Raise e] of the [result] type. *)

From Stdlib Require Import String Ascii.
From Stdlib Require Import List ZArith QArith Qabs Qminmax Bool Arith Lia.
From Stdlib Require Import Reals Lra.
From Stdlib Require Import Permutation.
Import ListNotations.

Local Close Scope Q_scope.
Local Close Scope R_scope.
Local Close Scope Z_scope.
Local Open Scope nat_scope.
Local Open Scope list_scope.

Set Implicit Arguments.

(** ** Exceptions *)

Inductive exn : Set :=
| ValueError          (* numpy: bad shape, empty reduction, bad FFT length *)
| IndexError          (* index out of bounds *)
| AxisError           (* axis out of bounds for the array's dimension *)
| ZeroDivisionError   (* Python int / int with a zero divisor *)
| RuntimeError.       (* soundfile: the file cannot be opened or decoded *)

Inductive result (A : Type) : Type :=
| Ok (a : A)
| Raise (e : exn).

Arguments Ok {A} a.
Arguments Raise {A} e.

Definition bind {A B : Type} (c : result A) (k : A -> result B) : result B :=
  match c with
  | Ok a => k a
  | Raise e => Raise e
  end.

Declare Scope py_scope.
Delimit Scope py_scope with py.
Notation "x <- c ;; k" := (bind c (fun x => k))
  (at level 61, c at next level, right associativity) : py_scope.
Notation "' pat <- c ;; k" := (bind c (fun x => match x with pat => k end))
  (at level 61, pat pattern, c at next level, right associativity) : py_scope.

(** ** Sample values *)

Inductive fval : Type :=
| Fin (q : Q)         (* a finite number *)
| Inf (neg : bool)    (* +inf ([neg = false]) or -inf *)
| NaN.

Definition is_zero (q : Q) : bool := (Qnum q =? 0)%Z.
Definition is_neg (q : Q) : bool := (Qnum q <? 0)%Z.

(** [np.abs] on one value. *)
Definition fabs (x : fval) : fval :=
  match x with
  | Fin q => Fin (Qabs q)
  | Inf _ => Inf false
  | NaN => NaN
  end.

(** The maximum of two values as [np.max] combines them: not-a-number
    propagates. *)
Definition fmax (x y : fval) : fval :=
  match x, y with
  | NaN, _ | _, NaN => NaN
  | Inf false, _ | _, Inf false => Inf false
  | Inf true, z | z, Inf true => z
  | Fin a, Fin b => Fin (Qmax a b)
  end.

(** True division of two values; a zero divisor gives an infinity, or
    not-a-number when the dividend is zero too (numpy emits a warning and
    raises nothing). *)
Definition fdiv (x m : fval) : fval :=
  match x, m with
  | NaN, _ | _, NaN => NaN
  | Inf _, Inf _ => NaN
  | Inf s, Fin d => Inf (xorb s (is_neg d))
  | Fin _, Inf _ => Fin 0
  | Fin a, Fin d =>
      if is_zero d then (if is_zero a then NaN else Inf (is_neg a))
      else Fin (a / d)
  end.

Definition is_finite (x : fval) : bool :=
  match x with Fin _ => true | _ => false end.

(** ** numpy arrays *)

(** Arrays of dimension one and two.  [Arr1D items] has shape
    [(length items,)]; it is what [np.array] builds from an empty list (a
    float array of shape (0,)) and from rows of unequal length (an array of
    row objects).  [Arr2 c rows] has shape [(length rows, c)]. *)
Inductive ndarray (A : Type) : Type :=
| Arr1D (items : list (list A))
| Arr2 (ncols : nat) (rows : list (list A)).

Arguments Arr1D {A} items.
Arguments Arr2 {A} ncols rows.

Definition array_rows {A} (a : ndarray A) : list (list A) :=
  match a with
  | Arr1D items => items
  | Arr2 _ rows => rows
  end.

(** [a.shape[0]] *)
Definition shape0 {A} (a : ndarray A) : nat := length (array_rows a).

(** [np.array(rows)] for a list of one-dimensional arrays. *)
Definition np_array {A} (rows : list (list A)) : ndarray A :=
  match rows with
  | [] => Arr1D []
  | r :: rs =>
      if forallb (fun r' => length r' =? length r) rs
      then Arr2 (length r) rows
      else Arr1D rows
  end.

(** [np.empty((0, c))]: negative dimensions are refused. *)
Definition np_empty0 {A} (c : Z) : result (ndarray A) :=
  if (c <? 0)%Z then Raise ValueError else Ok (Arr2 (Z.to_nat c) []).

(** [np.append(a, b, axis=0)]: the arrays must have the same number of
    dimensions and agree on every axis but the first. *)
Definition np_append {A} (a b : ndarray A) : result (ndarray A) :=
  match a, b with
  | Arr2 ca ra, Arr2 cb rb =>
      if ca =? cb then Ok (Arr2 ca (ra ++ rb)) else Raise ValueError
  | Arr1D ia, Arr1D ib => Ok (Arr1D (ia ++ ib))
  | _, _ => Raise ValueError
  end.

(** ** Python indexing *)

(** [range(k)] *)
Definition py_range (k : Z) : list Z :=
  map Z.of_nat (seq 0 (Z.to_nat k)).

(** Clamping of a slice bound on a sequence of length [n]. *)
Definition slice_bound (n i : Z) : Z :=
  if (i <? 0)%Z then Z.max (i + n) 0 else Z.min i n.

(** [l[a:b]] *)
Definition py_slice {A} (l : list A) (a b : Z) : list A :=
  let n := Z.of_nat (length l) in
  let lo := slice_bound n a in
  let hi := slice_bound n b in
  firstn (Z.to_nat (hi - lo)) (skipn (Z.to_nat lo) l).

(** The position an index [i] designates on an axis of size [n], when it is
    within bounds; negative indices count from the end. *)
Definition py_index (n : nat) (i : Z) : option nat :=
  let m := Z.of_nat n in
  if ((0 <=? i) && (i <? m))%Z then Some (Z.to_nat i)
  else if ((- m <=? i) && (i <? 0))%Z then Some (Z.to_nat (i + m))
  else None.

(** [int(np.ceil(a / b))] for Python integers [a], [b]: true division
    raises on a zero divisor.  The quotient is taken exactly.  The code
    takes the ceiling of the binary64 quotient, which is the same integer
    when [a] and [b] are below [2 ^ 53] in absolute value; beyond that
    range the binary64 quotient can round, vanish or overflow, which this
    definition does not represent.  The properties that depend on the
    number of windows are stated for that range. *)
Definition ceil_div (a b : Z) : result Z :=
  if (b =? 0)%Z then Raise ZeroDivisionError
  else Ok (- ((- a) / b))%Z.

(** [l[j] = v] on a list, for a position within bounds. *)
Fixpoint list_set {A} (l : list A) (j : nat) (v : A) : list A :=
  match l, j with
  | [], _ => []
  | _ :: t, O => v :: t
  | h :: t, S j' => h :: list_set t j' v
  end.

(** ** numpy reductions and constructors used by [import_data] *)

(** [np.max(a)] over all the elements of an array; an empty array has no
    maximum. *)
Definition np_max (elts : list fval) : result fval :=
  match elts with
  | [] => Raise ValueError
  | x :: xs => Ok (fold_left fmax xs x)
  end.

(** [np.abs(a)] on a two-dimensional array. *)
Definition np_abs (data : list (list fval)) : list (list fval) :=
  map (map fabs) data.

(** [a / m] for an array [a] and a scalar [m]. *)
Definition np_divide (data : list (list fval)) (m : fval) : list (list fval) :=
  map (map (fun x => fdiv x m)) data.

(** [np.ndarray.flatten(a, order='F')] on an array of shape
    [(length data, c)]: column after column. *)
Definition column {A} (j : nat) (data : list (list A)) : list A :=
  flat_map (fun fr => match nth_error fr j with Some x => [x] | None => [] end)
           data.

Definition flatten_F {A} (c : nat) (data : list (list A)) : list A :=
  flat_map (fun j => column j data) (seq 0 c).

(** [np.zeros((k, c), dtype=np.int)] *)
Definition np_zeros (k c : nat) : ndarray Z := Arr2 c (repeat (repeat 0%Z c) k).

(** [y[:, j] = v] *)
Definition set_column (y : ndarray Z) (j : Z) (v : Z) : result (ndarray Z) :=
  match y with
  | Arr1D _ => Raise IndexError
  | Arr2 c rows =>
      match py_index c j with
      | None => Raise IndexError
      | Some p => Ok (Arr2 c (map (fun row => list_set row p v) rows))
      end
  end.

(** ** The recordings *)

(** What [sf.read] returns for a file: an array of shape
    [(length frames, channels)], one row per frame.  (A one-channel file is
    returned as a one-dimensional array; it flattens and reduces as the
    one-column array does.) *)
Record sound : Type := mkSound {
  channels : nat;
  frames : list (list Q)
}.

(** Every frame carries one sample per channel. *)
Definition well_formed (s : sound) : Prop :=
  Forall (fun fr => length fr = channels s) (frames s).

(** The samples of a decoded file as array elements. *)
Definition samples (s : sound) : list (list fval) := map (map Fin) (frames s).

(** A recording is silent when every sample is zero. *)
Definition silent (s : sound) : Prop :=
  Forall (Forall (fun q => (q == 0)%Q)) (frames s).

(** ** The file table *)

(** A Python dict from file names to class indices, in insertion order. *)
Definition dict : Type := list (string * Z).

(** [d[k] = v]: an existing key keeps its position and takes the new value;
    a new key goes last. *)
Fixpoint dict_setitem (d : dict) (k : string) (v : Z) : dict :=
  match d with
  | [] => [(k, v)]
  | (k', v') :: rest =>
      if String.eqb k' k then (k', v) :: rest
      else (k', v') :: dict_setitem rest k v
  end.

(** A dict display [{k1: v1, k2: v2, ...}] inserts its pairs from left to
    right. *)
Definition dict_literal (pairs : list (string * Z)) : dict :=
  fold_left (fun d kv => dict_setitem d (fst kv) (snd kv)) pairs [].

(** [d.items()] *)
Definition dict_items (d : dict) : list (string * Z) := d.

(** [d[k]] (as an option) *)
Fixpoint dict_get (d : dict) (k : string) : option Z :=
  match d with
  | [] => None
  | (k', v) :: rest => if String.eqb k' k then Some v else dict_get rest k
  end.

(** The value of the last pair with key [k] in a list of pairs. *)
Fixpoint last_binding (pairs : list (string * Z)) (k : string) : option Z :=
  match pairs with
  | [] => None
  | (k', v) :: rest =>
      match last_binding rest k with
      | Some w => Some w
      | None => if String.eqb k' k then Some v else None
      end
  end.

(** ** The magnitude spectrum *)

(** The real and imaginary parts of bin [k] of the discrete Fourier
    transform of [n] real samples. *)
Definition dft_re (n : nat) (xs : list Q) (k : nat) : R :=
  fold_right Rplus 0%R
    (map (fun jx => (Q2R (snd jx) *
                     cos (2 * PI * INR k * INR (fst jx) / INR n))%R)
         (combine (seq 0 n) xs)).

Definition dft_im (n : nat) (xs : list Q) (k : nat) : R :=
  fold_right Rplus 0%R
    (map (fun jx => (- (Q2R (snd jx) *
                        sin (2 * PI * INR k * INR (fst jx) / INR n)))%R)
         (combine (seq 0 n) xs)).

(** The finite samples of a row, when all of them are finite. *)
Fixpoint finite_row (row : list fval) : option (list Q) :=
  match row with
  | [] => Some []
  | Fin q :: t => option_map (cons q) (finite_row t)
  | _ :: _ => None
  end.

(** One row of [np.abs(np.fft.rfft(X, axis=1))]: the moduli of the bins
    [0 .. n/2].  [None] stands for a value that is not a finite number,
    which is what every bin is when the row holds such a value. *)
Definition rfft_abs (n : nat) (row : list fval) : list (option R) :=
  match finite_row row with
  | Some xs =>
      map (fun k => Some (sqrt (Rsqr (dft_re n xs k) + Rsqr (dft_im n xs k))))
          (seq 0 (n / 2 + 1))
  | None => repeat None (n / 2 + 1)
  end.

(** [np.abs(np.fft.rfft(X, axis=1))]: the transform length is the size of
    axis 1, and must be at least one.  The cast [np.float32(X)] that follows
    keeps the shape and the sign of every entry and is not modelled. *)
Definition magnitude_spectrum (X : ndarray fval) : result (ndarray (option R)) :=
  match X with
  | Arr1D _ => Raise IndexError
  | Arr2 n rows =>
      if n =? 0 then Raise ValueError
      else Ok (Arr2 (n / 2 + 1) (map (rfft_abs n) rows))
  end.

(** ** The pre-processing cell *)

Section Preprocessing.

(** [sf.read]: the decoded contents of the files that can be read. *)
Variable sf_read : string -> option sound.

(** The module-level constant that [import_data] reads. *)
Variable n_classes : nat.

Definition read (fname : string) : result sound :=
  match sf_read fname with
  | Some s => Ok s
  | None => Raise RuntimeError
  end.

(** [data = data/np.max(np.abs(data[:]))] *)
Definition normalize (data : list (list fval)) : result (list (list fval)) :=
  (peak <- np_max (concat (np_abs data)) ;;
   Ok (np_divide data peak))%py.

(** The windows cut from the flattened samples:
    [nseg = np.ceil((len(data)-segment_size)/segment_step)] and
    [[data[i*segment_step:i*segment_step+segment_size]
      for i in range(int(nseg))]]. *)
Definition segments (data : list fval) (segment_size segment_step : Z)
  : result (list (list fval)) :=
  (nseg <- ceil_div (Z.of_nat (length data) - segment_size) segment_step ;;
   Ok (map (fun i => py_slice data (i * segment_step)
                              (i * segment_step + segment_size))
           (py_range nseg)))%py%Z.

(** [y = np.zeros((k, n_classes), dtype=np.int); y[:, nclass] = 1] *)
Definition one_hot (k : nat) (nclass : Z) : result (ndarray Z) :=
  set_column (np_zeros k n_classes) nclass 1%Z.

Definition import_data (fname : string) (nclass : Z)
           (segment_size segment_step : Z)
  : result (ndarray fval * ndarray Z) :=
  ((* read wav file *)
   snd <- read fname ;;
   (* normalize level *)
   data <- normalize (samples snd) ;;
   (* put both channels into one vector *)
   let data := flatten_F (channels snd) data in
   (* segment and sort into feature matrix *)
   windows <- segments data segment_size segment_step ;;
   let X := np_array windows in
   (* construct target vector with one hot encoding *)
   y <- one_hot (shape0 X) nclass ;;
   Ok (X, y))%py.

(** *** The accumulation loop *)

Variable segment_size segment_step : Z.
Variable fprefix : string.

(** The two module-level arrays the loop rebinds. *)
Record state : Type := mkState {
  X : ndarray fval;
  y : ndarray Z
}.

(** One iteration.  The assignments to [X] and [y] are separate
    statements: an exception leaves the bindings made before it. *)
Definition loop_body (st : state) (item : string * Z) : state * option exn :=
  let (fname, nclass) := item in
  match import_data (fprefix ++ fname)%string nclass
                    segment_size segment_step with
  | Raise e => (st, Some e)
  | Ok (Xt, yt) =>
      match np_append (X st) Xt with
      | Raise e => (st, Some e)
      | Ok X' =>
          match np_append (y st) yt with
          | Raise e => (mkState X' (y st), Some e)
          | Ok y' => (mkState X' y', None)
          end
      end
  end.

(** [for fname, nclass in flist.items(): ...], with the state reached at
    the end of every iteration that was started (the last one possibly
    ended by an exception). *)
Fixpoint for_loop (items : list (string * Z)) (st : state)
  : list state * option exn :=
  match items with
  | [] => ([], None)
  | item :: rest =>
      match loop_body st item with
      | (st', Some e) => ([st'], Some e)
      | (st', None) =>
          let (trace, e) := for_loop rest st' in (st' :: trace, e)
      end
  end.

(** [X = np.empty((0, segment_size)); y = np.empty((0, n_classes), ...)] *)
Definition initial_state : result state :=
  (X0 <- np_empty0 segment_size ;;
   y0 <- np_empty0 (Z.of_nat n_classes) ;;
   Ok (mkState X0 y0))%py.

(** The whole cell: accumulation over the table, then the magnitude
    spectrum of every row. *)
Definition preprocess (flist : dict)
  : result (ndarray (option R) * ndarray Z) :=
  (st0 <- initial_state ;;
   let (trace, e) := for_loop (dict_items flist) st0 in
   match e with
   | Some e => Raise e
   | None =>
       let st := last trace st0 in
       Xf <- magnitude_spectrum (X st) ;;
       Ok (Xf, y st)
   end)%py.

End Preprocessing.

(** The invariant of the accumulation: as many feature rows as label rows,
    and a two-dimensional label array with [n] columns. *)
Definition rows_aligned (n : nat) (st : state) : Prop :=
  shape0 (X st) = shape0 (y st) /\
  exists rows, y st = Arr2 n rows /\ Forall (fun row => length row = n) rows.

(** ** The constants of the notebook *)

Module Notebook.

Definition segment_size : Z := 512.  (* length of segments *)
Definition segment_step : Z := 128.  (* overlap = segment_size - segment_step *)
Definition n_classes : nat := 5.     (* number of classes *)
Definition fprefix : string := "data/07_12_2017_recordings/".

(** The pairs of the dict display, as written. *)
Definition flist_pairs : list (string * Z) :=
  [ ("plastic_spheres_1.wav", 0); ("plastic_spheres_2.wav", 0);
    ("plastic_spheres_3.wav", 0); ("plastic_spheres_4.wav", 0);
    ("steel_nut_M3_1.wav", 1); ("steel_nut_M3_2.wav", 1);
    ("steel_nut_M3_3.wav", 1); ("steel_nut_M3_4.wav", 1);
    ("steel_nut_M4_1.wav", 2); ("steel_nut_M4_2.wav", 2);
    ("steel_nut_M4_3.wav", 2); ("steel_nut_M4_4.wav", 2);
    ("messing_nut_M4_1.wav", 3); ("messing_nut_M4_1.wav", 3);
    ("messing_nut_M4_1.wav", 3); ("messing_nut_M4_1.wav", 3);
    ("screws_1.wav", 4); ("screws_2.wav", 4);
    ("screws_3.wav", 4); ("screws_4.wav", 4) ]%string%Z.

Definition flist : dict := dict_literal flist_pairs.

(** The cell, run on the files that [sf_read] decodes. *)
Definition run (sf_read : string -> option sound)
  : result (ndarray (option R) * ndarray Z) :=
  preprocess sf_read n_classes segment_size segment_step fprefix flist.

End Notebook.

(** ** Vocabulary of the properties *)

(** The window that starts at sample [i * S]. *)
Definition window (data : list fval) (L S : Z) (i : nat) : list fval :=
  firstn (Z.to_nat L) (skipn (i * Z.to_nat S) data).

(** Some sample of the recording is not zero. *)
Definition audible (s : sound) : Prop :=
  Exists (Exists (fun q => ~ (q == 0)%Q)) (frames s).

(** The peak absolute amplitude of a non-empty recording whose samples, in
    array order, are [x :: l]. *)
Definition peak (x : Q) (l : list Q) : Q := fold_left Qmax (map Qabs l) (Qabs x).

(** The sum of a label row. *)
Definition sum_Z (row : list Z) : Z := fold_right Z.add 0%Z row.

(** The label row for position [p] among [n] classes. *)
Definition one_hot_row (n p : nat) : list Z := list_set (repeat 0%Z n) p 1%Z.

(** The file names of the iterations that the loop started, given the
    states it went through. *)
Definition visited (items : list (string * Z)) (trace : list state)
  : list string :=
  firstn (length trace) (map fst items).

(** ** Example recordings

    A small file system used to run the definitions on concrete inputs: a
    two-channel clip, a clip of one sample, a silent clip and a file with no
    frame. *)

Definition stereo_clip : sound :=
  mkSound 2 [[1 # 2; 1 # 4]; [- (1); 0]; [1 # 3; 1 # 5]; [0; 1 # 7]]%Q.

Definition one_sample : sound := mkSound 1 [[1 # 2]%Q].

Definition silent_clip : sound := mkSound 1 [[0]; [0]; [0]; [0]]%Q.

(** A two-channel clip whose peak absolute amplitude is one half. *)
Definition quiet_clip : sound :=
  mkSound 2 [[1 # 4; - (1 # 8)]; [- (1 # 2); 3 # 8]]%Q.

Definition empty_clip : sound := mkSound 2 [].

(** What [import_data] returns for [stereo_clip] with class 1 of 3, segment
    length 3 and stride 2. *)
Definition stereo_windows : ndarray fval :=
  Arr2 3 [[Fin (1 # 2); Fin (-1 # 1); Fin (1 # 3)];
          [Fin (1 # 3); Fin (0 # 1); Fin (1 # 4)];
          [Fin (1 # 4); Fin (0 # 1); Fin (1 # 5)]]%Q.

Definition stereo_labels : ndarray Z :=
  Arr2 3 [[0; 1; 0]; [0; 1; 0]; [0; 1; 0]]%Z.

(** A synthetic two-channel recording of 1024 samples per channel. *)
Definition synthetic_clip : sound :=
  mkSound 2 (repeat [1 # 2; - (1 # 4)]%Q 1024).

Definition disk (fname : string) : option sound :=
  if String.eqb fname "a.wav" then Some stereo_clip
  else if String.eqb fname "s.wav" then Some one_sample
  else if String.eqb fname "z.wav" then Some silent_clip
  else if String.eqb fname "e.wav" then Some empty_clip
  else None.

(** ** The split and the decoding of the labels *)

(** [np.argmax] of one row: the position of the first maximum, [top] being
    the largest value seen so far and [best] its position. *)
Fixpoint argmax_from (l : list Z) (i best : nat) (top : Z) : nat :=
  match l with
  | [] => best
  | x :: t =>
      if (top <? x)%Z then argmax_from t (S i) i x
      else argmax_from t (S i) best top
  end.

Definition argmax_row (row : list Z) : nat :=
  match row with
  | [] => 0
  | x :: t => argmax_from t 1 0 x
  end.

(** [np.argmax(a, axis=1)]: one position per row; an axis of size zero has
    no maximum. *)
Definition np_argmax1 (a : ndarray Z) : result (list nat) :=
  match a with
  | Arr1D _ => Raise AxisError
  | Arr2 c rows => if c =? 0 then Raise ValueError else Ok (map argmax_row rows)
  end.

(** [a[idx]] for a list of row positions. *)
Fixpoint take {A} (rows : list A) (idx : list nat) : result (list A) :=
  match idx with
  | [] => Ok []
  | i :: t =>
      match nth_error rows i with
      | None => Raise IndexError
      | Some r => (rs <- take rows t ;; Ok (r :: rs))%py
      end
  end.

Definition take_rows {A} (a : ndarray A) (idx : list nat) : result (ndarray A) :=
  match a with
  | Arr1D items => (rs <- take items idx ;; Ok (Arr1D rs))%py
  | Arr2 c rows => (rs <- take rows idx ;; Ok (Arr2 c rs))%py
  end.

(** The size of the test part for [test_size=1/4]: the ceiling of a quarter
    of the rows. *)
Definition n_test_of (n : nat) : nat := (n + 3) / 4.

(** [train_test_split(X, y, test_size=1/4, random_state=42)].  The arrays
    must have as many rows; the test part takes the first [n_test_of n]
    positions of the shuffle and the training part the remaining ones,
    which must not be none.  [perm] is the shuffle of the row positions
    that the seeded generator draws. *)
Definition train_test_split {A B} (perm : list nat)
           (Xa : ndarray A) (ya : ndarray B)
  : result (ndarray A * ndarray A * ndarray B * ndarray B) :=
  let n := shape0 Xa in
  if negb (shape0 ya =? n) then Raise ValueError
  else
    let n_test := n_test_of n in
    let n_train := n - n_test in
    if n_train =? 0 then Raise ValueError
    else
      let ind_test := firstn n_test perm in
      let ind_train := firstn n_train (skipn n_test perm) in
      (X_train <- take_rows Xa ind_train ;;
       X_test <- take_rows Xa ind_test ;;
       y_train <- take_rows ya ind_train ;;
       y_test <- take_rows ya ind_test ;;
       Ok (X_train, X_test, y_train, y_test))%py.

(** ** Further vocabulary *)

(** The recording played [k] times as loud. *)
Definition scale (k : Q) (s : sound) : sound :=
  mkSound (channels s) (map (map (Qmult k)) (frames s)).

(** Two sample values are the same number. *)
Definition feq (u v : fval) : Prop :=
  match u, v with
  | Fin a, Fin b => (a == b)%Q
  | Inf s, Inf t => s = t
  | NaN, NaN => True
  | _, _ => False
  end.

(** The keys of a list of pairs in the order of their first occurrence,
    the keys in [seen] left out. *)
Fixpoint first_occurrences (seen : list string) (keys : list string)
  : list string :=
  match keys with
  | [] => []
  | k :: t =>
      if existsb (String.eqb k) seen then first_occurrences seen t
      else k :: first_occurrences (seen ++ [k]) t
  end.

(** A label row that encodes the class of some entry of the table, and
    decodes to it. *)
Definition label_of_table (n_classes : nat) (table : list (string * Z))
           (row : list Z) : Prop :=
  exists item p,
    In item table /\ py_index n_classes (snd item) = Some p /\
    p < n_classes /\ row = one_hot_row n_classes p /\ argmax_row row = p.

(** A file of the table that yields at least one window: it can be read,
    it is a well-formed array with more than [L] and fewer than [2 ^ 53]
    samples, and its class index is within bounds. *)
Definition usable (sf_read : string -> option sound) (n_classes : nat)
           (fprefix : string) (L : Z) (item : string * Z) : Prop :=
  exists clip p,
    sf_read (fprefix ++ fst item)%string = Some clip /\
    well_formed clip /\
    (L < Z.of_nat (channels clip * length (frames clip)) < 2 ^ 53)%Z /\
    py_index n_classes (snd item) = Some p.

(** * Properties *)

(** ** Slices, ranges and the ceiling *)

Section Indexing.

Context {A : Type}.

Lemma py_slice_within (l : list A) (a len : Z) :
  (0 <= a)%Z -> (0 <= len)%Z -> (a + len <= Z.of_nat (length l))%Z ->
  py_slice l a (a + len) = firstn (Z.to_nat len) (skipn (Z.to_nat a) l).
Proof.
  intros Ha Hlen Hfit. unfold py_slice, slice_bound.
  destruct (Z.ltb_spec a 0); [lia |].
  destruct (Z.ltb_spec (a + len) 0); [lia |].
  rewrite (Z.min_l a) by lia. rewrite (Z.min_l (a + len)) by lia.
  replace (a + len - a)%Z with len by lia. reflexivity.
Qed.

Lemma firstn_skipn_length (l : list A) (a len : nat) :
  a + len <= length l -> length (firstn len (skipn a l)) = len.
Proof.
  intros H. rewrite length_firstn, length_skipn. lia.
Qed.

Lemma array_rows_np_array (rows : list (list A)) :
  array_rows (np_array rows) = rows.
Proof.
  destruct rows as [| r rs]; [reflexivity |].
  simpl. destruct (forallb _ rs); reflexivity.
Qed.

Lemma shape0_np_array (rows : list (list A)) :
  shape0 (np_array rows) = length rows.
Proof. unfold shape0. now rewrite array_rows_np_array. Qed.

Lemma np_array_uniform (c : nat) (rows : list (list A)) :
  rows <> [] -> Forall (fun r => length r = c) rows ->
  np_array rows = Arr2 c rows.
Proof.
  destruct rows as [| r rs]; [congruence |]. intros _ H.
  inversion H as [| ? ? Hr Hrs]; subst. simpl.
  replace (forallb (fun r' => length r' =? length r) rs) with true;
    [reflexivity |].
  symmetry. apply forallb_forall. intros r' Hin.
  rewrite Forall_forall in Hrs. apply Nat.eqb_eq. now apply Hrs.
Qed.

End Indexing.

Lemma ceil_div_pos (a b : Z) :
  (0 < b)%Z ->
  exists c, ceil_div a b = Ok c /\ ((c - 1) * b < a <= c * b)%Z.
Proof.
  intros Hb. unfold ceil_div.
  destruct (Z.eqb_spec b 0); [lia |].
  eexists; split; [reflexivity |].
  pose proof (Z.div_mod (- a) b ltac:(lia)) as Hdm.
  pose proof (Z.mod_pos_bound (- a) b Hb) as Hr.
  nia.
Qed.

(** The ceiling of [a / b] is determined by its defining inequalities. *)
Lemma ceiling_unique (a b c c' : Z) :
  (0 < b)%Z ->
  ((c - 1) * b < a <= c * b)%Z -> ((c' - 1) * b < a <= c' * b)%Z -> c = c'.
Proof. intros. nia. Qed.

(** ** Segmentation *)

Lemma segments_spec (data : list fval) (L S : Z) :
  (0 < S)%Z -> (0 <= L)%Z ->
  exists c,
    ((c - 1) * S < Z.of_nat (length data) - L <= c * S)%Z /\
    segments data L S = Ok (map (window data L S) (seq 0 (Z.to_nat c))) /\
    forall i, i < Z.to_nat c ->
              (Z.of_nat i * S + L < Z.of_nat (length data))%Z.
Proof.
  intros HS HL. unfold segments.
  destruct (ceil_div_pos (Z.of_nat (length data) - L) HS) as (c & Hc & Hbnd).
  exists c. rewrite Hc. simpl.
  assert (Hin : forall i, i < Z.to_nat c ->
                          (Z.of_nat i * S + L < Z.of_nat (length data))%Z).
  { intros i Hi. nia. }
  split; [exact Hbnd |]. split; [| exact Hin].
  f_equal. unfold py_range. rewrite map_map.
  apply map_ext_in. intros i Hi. apply in_seq in Hi.
  specialize (Hin i ltac:(lia)).
  rewrite py_slice_within by nia.
  unfold window. f_equal. f_equal. nia.
Qed.

Lemma window_length (data : list fval) (L S : Z) (i : nat) :
  (0 < S)%Z -> (0 <= L)%Z ->
  (Z.of_nat i * S + L <= Z.of_nat (length data))%Z ->
  length (window data L S i) = Z.to_nat L.
Proof.
  intros HS HL Hfit. unfold window. apply firstn_skipn_length. nia.
Qed.

(** A recording of 1024 samples per channel flattens to 2048 samples and,
    with the constants of the notebook, gives 12 windows of 512 samples
    and 12 label rows. *)
Example synthetic_clip_windows :
  exists rows labels,
    import_data (fun _ => Some synthetic_clip) Notebook.n_classes
                "synthetic.wav" 0 Notebook.segment_size Notebook.segment_step
    = Ok (Arr2 512 rows, Arr2 5 labels) /\
    length rows = 12 /\ length labels = 12 /\
    forallb (fun row => length row =? 512) rows = true /\
    labels = repeat [1; 0; 0; 0; 0]%Z 12.
Proof.
  destruct (import_data (fun _ => Some synthetic_clip) Notebook.n_classes
                        "synthetic.wav" 0 Notebook.segment_size
                        Notebook.segment_step)
    as [[[items | c rows] [items' | c' labels]] | e] eqn:E;
    vm_compute in E; try discriminate.
  injection E as <- <- <- <-.
  eexists _, _. split; [reflexivity |]. repeat split.
Qed.

(** ** Normalization *)

Lemma is_zero_spec (q : Q) : is_zero q = true <-> (q == 0)%Q.
Proof.
  unfold is_zero, Qeq. simpl. rewrite Z.eqb_eq. lia.
Qed.

Lemma is_zero_false (q : Q) : is_zero q = false <-> ~ (q == 0)%Q.
Proof.
  rewrite <- is_zero_spec. destruct (is_zero q); split; congruence.
Qed.

Lemma audible_not_silent (s : sound) : audible s <-> ~ silent s.
Proof.
  unfold audible, silent. split.
  - intros Hex Hall. rewrite Exists_exists in Hex.
    destruct Hex as (fr & Hfr & Hq). rewrite Forall_forall in Hall.
    specialize (Hall fr Hfr). rewrite Exists_exists in Hq.
    destruct Hq as (q & Hin & Hne). rewrite Forall_forall in Hall. auto.
  - intros Hn. apply neg_Forall_Exists_neg in Hn.
    + eapply Exists_impl; [| exact Hn]. intros fr Hfr.
      apply neg_Forall_Exists_neg in Hfr; [exact Hfr |].
      intros q. destruct (Qeq_dec q 0); auto.
    + intros fr. apply Forall_dec. intros q. destruct (Qeq_dec q 0); auto.
Qed.

Lemma silent_concat (s : sound) :
  silent s <-> Forall (fun q => (q == 0)%Q) (concat (frames s)).
Proof.
  unfold silent. induction (frames s) as [| fr frs IH]; simpl.
  - split; constructor.
  - rewrite Forall_app, <- IH. split.
    + intros H. inversion H; auto.
    + intros [? ?]. constructor; auto.
Qed.

Lemma audible_concat (s : sound) :
  audible s <-> Exists (fun q => ~ (q == 0)%Q) (concat (frames s)).
Proof.
  unfold audible. induction (frames s) as [| fr frs IH]; simpl.
  - split; intros H; inversion H.
  - rewrite Exists_app, <- IH, Exists_cons. reflexivity.
Qed.

(** The running maximum of rationals. *)
Section RunningMax.

Local Open Scope Q_scope.

Lemma fold_Qmax_init (l : list Q) (x : Q) : x <= fold_left Qmax l x.
Proof.
  revert x. induction l as [| a l IH]; intros x; simpl.
  - apply Qle_refl.
  - eapply Qle_trans; [apply (Q.le_max_l x a) | apply IH].
Qed.

Lemma fold_Qmax_ge (l : list Q) (x z : Q) :
  In z l -> z <= fold_left Qmax l x.
Proof.
  revert x. induction l as [| a l IH]; intros x Hin; simpl in *.
  - contradiction.
  - destruct Hin as [-> | Hin].
    + eapply Qle_trans; [apply (Q.le_max_r x z) | apply fold_Qmax_init].
    + now apply IH.
Qed.

Lemma fold_Qmax_attained (l : list Q) (x : Q) :
  exists z, In z (x :: l) /\ fold_left Qmax l x == z.
Proof.
  revert x. induction l as [| a l IH]; intros x; simpl.
  - exists x. split; [now left | reflexivity].
  - destruct (IH (Qmax x a)) as (z & [Hz | Hz] & Heq).
    + subst z. destruct (Q.max_dec x a) as [Hm | Hm].
      * exists x. split; [now left |]. now rewrite Heq.
      * exists a. split; [right; now left |]. now rewrite Heq.
    + exists z. split; [right; now right | exact Heq].
Qed.

Lemma fold_Qmax_le (l : list Q) (x M : Q) :
  (forall z, In z (x :: l) -> z <= M) -> fold_left Qmax l x <= M.
Proof.
  intros H. destruct (fold_Qmax_attained l x) as (z & Hin & Heq).
  rewrite Heq. now apply H.
Qed.

Lemma fold_fmax_Fin (l : list Q) (x : Q) :
  fold_left fmax (map Fin l) (Fin x) = Fin (fold_left Qmax l x).
Proof.
  revert x. induction l as [| a l IH]; intros x; simpl; [reflexivity |].
  apply IH.
Qed.

Lemma np_max_Fin (f : Q -> Q) (x : Q) (l : list Q) :
  np_max (map (fun q => Fin (f q)) (x :: l)) =
  Ok (Fin (fold_left Qmax (map f l) (f x))).
Proof.
  simpl. f_equal. rewrite <- fold_fmax_Fin. now rewrite map_map.
Qed.

Lemma Qabs_div_pos (q p : Q) : 0 < p -> Qabs (q / p) == Qabs q / p.
Proof.
  intros Hp. unfold Qdiv. rewrite Qabs_Qmult.
  rewrite (Qabs_pos (/ p)); [reflexivity |].
  apply Qlt_le_weak. now apply Qinv_lt_0_compat.
Qed.

End RunningMax.

Lemma concat_np_abs_samples (s : sound) :
  concat (np_abs (samples s)) = map (fun q => Fin (Qabs q)) (concat (frames s)).
Proof.
  unfold np_abs, samples. rewrite concat_map, !map_map.
  f_equal. apply map_ext. intros fr. now rewrite map_map.
Qed.

Lemma np_max_samples (s : sound) (x : Q) (l : list Q) :
  concat (frames s) = x :: l ->
  np_max (concat (np_abs (samples s))) = Ok (Fin (peak x l)).
Proof.
  intros H. rewrite concat_np_abs_samples, H. apply np_max_Fin.
Qed.

Lemma peak_nonneg (x : Q) (l : list Q) : (0 <= peak x l)%Q.
Proof.
  eapply Qle_trans; [apply (Qabs_nonneg x) | apply fold_Qmax_init].
Qed.

Lemma peak_bounds (x : Q) (l : list Q) (q : Q) :
  In q (x :: l) -> (Qabs q <= peak x l)%Q.
Proof.
  intros [-> | Hin]; [apply fold_Qmax_init |].
  apply fold_Qmax_ge. now apply in_map.
Qed.

Lemma peak_attained (x : Q) (l : list Q) :
  exists q, In q (x :: l) /\ (Qabs q == peak x l)%Q.
Proof.
  destruct (fold_Qmax_attained (map Qabs l) (Qabs x)) as (z & Hin & Heq).
  destruct Hin as [<- | Hin].
  - exists x. split; [now left | now symmetry].
  - apply in_map_iff in Hin. destruct Hin as (q & <- & Hq).
    exists q. split; [now right | now symmetry].
Qed.

Lemma Qabs_zero_iff (q : Q) : (Qabs q == 0)%Q <-> (q == 0)%Q.
Proof.
  split; intros H.
  - apply Qle_antisym.
    + rewrite <- H. apply Qle_Qabs.
    + assert (Hn : (- q <= 0)%Q).
      { rewrite <- H, <- Qabs_opp. apply Qle_Qabs. }
      apply Qopp_le_compat in Hn. now rewrite Qopp_involutive in Hn.
  - now rewrite H.
Qed.

Lemma peak_zero_iff (x : Q) (l : list Q) :
  (peak x l == 0)%Q <-> Forall (fun q => (q == 0)%Q) (x :: l).
Proof.
  split.
  - intros H0. apply Forall_forall. intros q Hin.
    apply Qabs_zero_iff. apply Qle_antisym; [| apply Qabs_nonneg].
    rewrite <- H0. now apply peak_bounds.
  - intros Hall. destruct (peak_attained x l) as (q & Hin & Heq).
    rewrite <- Heq. apply Qabs_zero_iff.
    rewrite Forall_forall in Hall. now apply Hall.
Qed.

(** Dividing by a non-zero finite peak keeps every sample finite. *)
Lemma np_divide_samples (s : sound) (p : Q) :
  ~ (p == 0)%Q ->
  np_divide (samples s) (Fin p) = map (map (fun q => Fin (q / p)%Q)) (frames s).
Proof.
  intros Hp. unfold np_divide, samples. rewrite map_map.
  apply map_ext. intros fr. rewrite map_map. apply map_ext. intros q.
  simpl. apply is_zero_false in Hp. now rewrite Hp.
Qed.

(** Dividing zero samples by a zero peak gives not-a-number everywhere. *)
Lemma np_divide_silent (s : sound) (p : Q) :
  (p == 0)%Q -> silent s ->
  np_divide (samples s) (Fin p) = map (map (fun _ => NaN)) (frames s).
Proof.
  intros Hp Hs. unfold np_divide, samples. rewrite map_map.
  unfold silent in Hs. rewrite Forall_forall in Hs.
  apply map_ext_in. intros fr Hfr. rewrite map_map.
  specialize (Hs fr Hfr). rewrite Forall_forall in Hs.
  apply map_ext_in. intros q Hq. simpl.
  apply is_zero_spec in Hp. rewrite Hp.
  specialize (Hs q Hq). apply is_zero_spec in Hs. now rewrite Hs.
Qed.

(** ** Flattening *)

Section Flatten.

Context {A : Type}.

Lemma column_nth (d : A) (j : nat) (data : list (list A)) :
  Forall (fun fr => j < length fr) data ->
  column j data = map (fun fr => nth j fr d) data.
Proof.
  unfold column. induction 1 as [| fr frs Hfr _ IH]; simpl; [reflexivity |].
  rewrite IH. destruct (nth_error fr j) as [x |] eqn:E.
  - simpl. f_equal. symmetry. now apply nth_error_nth.
  - apply nth_error_None in E. lia.
Qed.

Lemma column_length (c j : nat) (data : list (list A)) :
  j < c -> Forall (fun fr => length fr = c) data ->
  length (column j data) = length data.
Proof.
  intros Hj Hwf.
  assert (Hd : Forall (fun fr => j < length fr) data).
  { eapply Forall_impl; [| exact Hwf]. simpl. intros; lia. }
  destruct data as [| fr frs]; [reflexivity |].
  destruct fr as [| d fr'].
  - inversion Hwf; subst; simpl in *; lia.
  - rewrite (column_nth d Hd). now rewrite length_map.
Qed.

Lemma flatten_F_length (c : nat) (data : list (list A)) :
  Forall (fun fr => length fr = c) data ->
  length (flatten_F c data) = c * length data.
Proof.
  intros Hwf. unfold flatten_F.
  assert (H : forall js, (forall j, In j js -> j < c) ->
                         length (flat_map (fun j => column j data) js)
                         = length js * length data).
  { induction js as [| j js IH]; intros Hjs; simpl; [reflexivity |].
    rewrite length_app, IH by (intros; apply Hjs; now right).
    rewrite (@column_length c) by (auto; apply Hjs; now left). reflexivity. }
  rewrite H.
  - now rewrite length_seq.
  - intros j Hj. apply in_seq in Hj. lia.
Qed.

Lemma flatten_F_two (data : list (list A)) :
  flatten_F 2 data = column 0 data ++ column 1 data.
Proof. unfold flatten_F. simpl. now rewrite app_nil_r. Qed.

End Flatten.

Lemma np_divide_shape (c : nat) (data : list (list fval)) (m : fval) :
  Forall (fun fr => length fr = c) data ->
  Forall (fun fr => length fr = c) (np_divide data m) /\
  length (np_divide data m) = length data.
Proof.
  intros H. unfold np_divide. split; [| apply length_map].
  apply Forall_map. eapply Forall_impl; [| exact H].
  simpl. intros fr Hfr. now rewrite length_map.
Qed.

Lemma samples_shape (s : sound) :
  well_formed s ->
  Forall (fun fr => length fr = channels s) (samples s) /\
  length (samples s) = length (frames s).
Proof.
  intros H. unfold samples. split; [| apply length_map].
  apply Forall_map. eapply Forall_impl; [| exact H].
  simpl. intros fr Hfr. now rewrite length_map.
Qed.

Lemma concat_length_uniform {A} (c : nat) (data : list (list A)) :
  Forall (fun fr => length fr = c) data ->
  length (concat data) = c * length data.
Proof.
  induction 1 as [| fr frs Hfr _ IH]; simpl; [lia |].
  rewrite length_app, IH, Hfr. lia.
Qed.

(** ** One-hot labels *)

Lemma list_set_length {A} (l : list A) (j : nat) (v : A) :
  length (list_set l j v) = length l.
Proof.
  revert j. induction l as [| h t IH]; intros [| j]; simpl; auto.
Qed.

Lemma list_set_same {A} (l : list A) (j : nat) (v : A) :
  j < length l -> nth_error (list_set l j v) j = Some v.
Proof.
  revert j. induction l as [| h t IH]; intros [| j] H; simpl in *;
    try lia; auto. apply IH. lia.
Qed.

Lemma list_set_other {A} (l : list A) (j k : nat) (v : A) :
  k <> j -> nth_error (list_set l j v) k = nth_error l k.
Proof.
  revert j k. induction l as [| h t IH]; intros [| j] [| k] H; simpl;
    try congruence; auto.
Qed.

Lemma sum_Z_zeros (n : nat) : sum_Z (repeat 0%Z n) = 0%Z.
Proof. induction n; simpl; auto. Qed.

Lemma sum_Z_one_hot (n p : nat) :
  p < n -> sum_Z (list_set (repeat 0%Z n) p 1%Z) = 1%Z.
Proof.
  revert p. induction n as [| n IH]; intros [| p] H; simpl; try lia.
  - now rewrite sum_Z_zeros.
  - apply IH. lia.
Qed.

Lemma py_index_bound (n : nat) (i : Z) (p : nat) :
  py_index n i = Some p ->
  p < n /\ ((0 <= i -> p = Z.to_nat i) /\ (i < 0 -> Z.of_nat p = i + Z.of_nat n))%Z.
Proof.
  unfold py_index.
  destruct (Z.leb_spec 0 i), (Z.ltb_spec i (Z.of_nat n)); simpl;
    try (intros [= <-]; lia);
    destruct (Z.leb_spec (- Z.of_nat n) i), (Z.ltb_spec i 0); simpl;
    try (intros [= <-]; lia); discriminate.
Qed.

Lemma one_hot_inv (n k : nat) (nclass : Z) (yv : ndarray Z) :
  one_hot n k nclass = Ok yv ->
  exists p, py_index n nclass = Some p /\
            yv = Arr2 n (repeat (one_hot_row n p) k).
Proof.
  unfold one_hot, np_zeros, set_column.
  destruct (py_index n nclass) as [p |]; [| discriminate].
  intros [= <-]. exists p. split; [reflexivity |].
  f_equal. induction k; simpl; [reflexivity | now f_equal].
Qed.

Lemma one_hot_row_spec (n p : nat) :
  p < n ->
  length (one_hot_row n p) = n /\
  nth_error (one_hot_row n p) p = Some 1%Z /\
  (forall j, j < n -> j <> p -> nth_error (one_hot_row n p) j = Some 0%Z) /\
  sum_Z (one_hot_row n p) = 1%Z.
Proof.
  intros Hp. unfold one_hot_row. repeat split.
  - now rewrite list_set_length, repeat_length.
  - apply list_set_same. now rewrite repeat_length.
  - intros j Hj Hne. rewrite list_set_other by exact Hne.
    rewrite nth_error_repeat; auto.
  - now apply sum_Z_one_hot.
Qed.

(** ** [import_data] as a whole *)

Section ImportData.

Variable sf_read : string -> option sound.
Variable n_classes : nat.

Lemma import_data_inv fname nclass L S Xv yv :
  import_data sf_read n_classes fname nclass L S = Ok (Xv, yv) ->
  exists snd data windows,
    sf_read fname = Some snd /\
    normalize (samples snd) = Ok data /\
    segments (flatten_F (channels snd) data) L S = Ok windows /\
    Xv = np_array windows /\
    one_hot n_classes (length windows) nclass = Ok yv.
Proof.
  unfold import_data, read.
  destruct (sf_read fname) as [snd |]; [| discriminate]. simpl.
  destruct (normalize (samples snd)) as [data |] eqn:En; [| discriminate].
  simpl.
  destruct (segments _ L S) as [windows |] eqn:Es; [| discriminate]. simpl.
  rewrite shape0_np_array.
  destruct (one_hot n_classes (length windows) nclass) as [y0 |] eqn:Ey;
    [| discriminate].
  simpl. intros [= <- <-]. exists snd, data, windows. repeat split; auto.
Qed.

Lemma import_data_intro fname nclass L S snd data windows yv :
  sf_read fname = Some snd ->
  normalize (samples snd) = Ok data ->
  segments (flatten_F (channels snd) data) L S = Ok windows ->
  one_hot n_classes (length windows) nclass = Ok yv ->
  import_data sf_read n_classes fname nclass L S = Ok (np_array windows, yv).
Proof.
  intros Hr Hn Hs Hy. unfold import_data, read. rewrite Hr. simpl.
  rewrite Hn. simpl. rewrite Hs. simpl. rewrite shape0_np_array, Hy.
  reflexivity.
Qed.

Lemma normalize_nonempty snd :
  concat (frames snd) <> [] ->
  exists x l, concat (frames snd) = x :: l /\
              normalize (samples snd) = Ok (np_divide (samples snd) (Fin (peak x l))).
Proof.
  intros Hne. destruct (concat (frames snd)) as [| x l] eqn:E; [congruence |].
  exists x, l. split; [reflexivity |].
  unfold normalize. now rewrite (np_max_samples snd E).
Qed.

Lemma one_hot_valid k nclass p :
  py_index n_classes nclass = Some p ->
  one_hot n_classes k nclass = Ok (Arr2 n_classes (repeat (one_hot_row n_classes p) k)).
Proof.
  intros Hp. unfold one_hot, np_zeros, set_column. rewrite Hp.
  do 2 f_equal. induction k; simpl; [reflexivity | now f_equal].
Qed.

End ImportData.

Lemma concat_np_abs_Fin (g : Q -> Q) (frs : list (list Q)) :
  concat (np_abs (map (map (fun q => Fin (g q))) frs)) =
  map (fun q => Fin (Qabs (g q))) (concat frs).
Proof.
  unfold np_abs. rewrite concat_map, !map_map.
  f_equal. apply map_ext. intros fr. now rewrite map_map.
Qed.

Lemma peak_positive (x : Q) (l : list Q) :
  Exists (fun q => ~ (q == 0)%Q) (x :: l) -> (0 < peak x l)%Q.
Proof.
  intros Hex. apply Exists_exists in Hex. destruct Hex as (q & Hin & Hq).
  destruct (Qlt_le_dec 0 (peak x l)) as [Hlt | Hle]; [exact Hlt |].
  exfalso. apply Hq.
  assert (H0 : (peak x l == 0)%Q).
  { apply Qle_antisym; [exact Hle | apply peak_nonneg]. }
  apply peak_zero_iff in H0. rewrite Forall_forall in H0. now apply H0.
Qed.

Lemma import_data_labels_rows
      (sf_read : string -> option sound) (n_classes : nat)
      (fname : string) (nclass L S : Z) (Xv : ndarray fval) (yv : ndarray Z) :
  import_data sf_read n_classes fname nclass L S = Ok (Xv, yv) ->
  exists rows,
    yv = Arr2 n_classes rows /\
    length rows = shape0 Xv /\
    Forall (fun row => length row = n_classes) rows.
Proof.
  intros Himp. apply import_data_inv in Himp.
  destruct Himp as (snd & data & windows & _ & _ & _ & -> & Hy).
  apply one_hot_inv in Hy. destruct Hy as (p & Hp & ->).
  destruct (py_index_bound _ _ Hp) as (Hlt & _).
  exists (repeat (one_hot_row n_classes p) (length windows)).
  split; [reflexivity |]. split.
  - now rewrite repeat_length, shape0_np_array.
  - apply Forall_forall. intros row Hrow. apply repeat_spec in Hrow.
    subst row. now apply one_hot_row_spec.
Qed.

Lemma column_map {A B} (f : A -> B) (j : nat) (data : list (list A)) :
  column j (map (map f) data) = map f (column j data).
Proof.
  unfold column. induction data as [| fr frs IH]; simpl; [reflexivity |].
  rewrite IH, map_app, nth_error_map.
  now destruct (nth_error fr j).
Qed.

Lemma flatten_F_map {A B} (f : A -> B) (c : nat) (data : list (list A)) :
  flatten_F c (map (map f) data) = map f (flatten_F c data).
Proof.
  unfold flatten_F. induction (seq 0 c) as [| j js IH]; simpl; [reflexivity |].
  now rewrite IH, map_app, column_map.
Qed.

Lemma flatten_F_np_divide_length (c : nat) (data : list (list fval)) (m : fval) :
  length (flatten_F c (np_divide data m)) = length (flatten_F c data).
Proof.
  unfold np_divide. now rewrite flatten_F_map, length_map.
Qed.

(** * The claims *)

(** ** Segment count and offsets *)

(** C1 (as amended).  For a recording that can be read, is not empty and has
    a class index within bounds, for a stride [0 < S < L], and with [L] and
    the length [N] of the flattened samples below [2 ^ 53] (the range in
    which the binary64 quotient gives the exact ceiling), [import_data]
    returns; with [c] the ceiling of [(N - L) / S], the returned array has
    [max 0 c] rows, and row [i] is the slice of [L] samples that starts at
    offset [i * S], which lies within the flattened samples. *)
Theorem import_data_window_count
        (sf_read : string -> option sound) (n_classes : nat)
        (fname : string) (nclass L S : Z) (snd : sound) (p : nat) :
  sf_read fname = Some snd ->
  concat (frames snd) <> [] ->
  py_index n_classes nclass = Some p ->
  (0 < S < L)%Z ->
  (L < 2 ^ 53)%Z ->
  (Z.of_nat (length (flatten_F (channels snd) (samples snd))) < 2 ^ 53)%Z ->
  exists data Xv yv c,
    normalize (samples snd) = Ok data /\
    import_data sf_read n_classes fname nclass L S = Ok (Xv, yv) /\
    let flat := flatten_F (channels snd) data in
    length flat = length (flatten_F (channels snd) (samples snd)) /\
    ((c - 1) * S < Z.of_nat (length flat) - L <= c * S)%Z /\
    Z.of_nat (shape0 Xv) = Z.max 0 c /\
    forall i, i < shape0 Xv ->
      nth_error (array_rows Xv) i
        = Some (firstn (Z.to_nat L) (skipn (i * Z.to_nat S) flat)) /\
      (Z.of_nat i * S + L <= Z.of_nat (length flat))%Z.
Proof.
  intros Hread Hne Hp [HS HL] _ _.
  destruct (normalize_nonempty snd Hne) as (x & l & _ & Hnorm).
  set (data := np_divide (samples snd) (Fin (peak x l))) in *.
  destruct (@segments_spec (flatten_F (channels snd) data) L S HS ltac:(lia))
    as (c & Hc & Hseg & Hfit).
  eexists data, _, _, c. split; [exact Hnorm |]. split.
  - eapply import_data_intro;
      [exact Hread | exact Hnorm | exact Hseg | apply one_hot_valid; exact Hp].
  - cbv zeta. split; [apply flatten_F_np_divide_length |].
    split; [exact Hc |].
    rewrite shape0_np_array, array_rows_np_array, length_map, length_seq.
    split; [lia |]. intros i Hi. split.
    + rewrite nth_error_map, nth_error_seq.
      destruct (Nat.ltb_spec i (Z.to_nat c)); [| lia]. reflexivity.
    + specialize (Hfit i Hi). lia.
Qed.

Lemma import_data_window_count_witness :
  exists data Xv yv c,
    normalize (samples stereo_clip) = Ok data /\
    import_data disk 3 "a.wav" 1 3 2 = Ok (Xv, yv) /\
    let flat := flatten_F (channels stereo_clip) data in
    length flat = length (flatten_F (channels stereo_clip)
                                    (samples stereo_clip)) /\
    ((c - 1) * 2 < Z.of_nat (length flat) - 3 <= c * 2)%Z /\
    Z.of_nat (shape0 Xv) = Z.max 0 c /\
    forall i, i < shape0 Xv ->
      nth_error (array_rows Xv) i
        = Some (firstn (Z.to_nat 3) (skipn (i * Z.to_nat 2) flat)) /\
      (Z.of_nat i * 2 + 3 <= Z.of_nat (length flat))%Z.
Proof.
  apply (@import_data_window_count disk 3 "a.wav" 1 3 2 stereo_clip 1).
  - reflexivity.
  - discriminate.
  - reflexivity.
  - lia.
  - lia.
  - simpl. lia.
Defined.

(** C1 as stated fails on a recording shorter than [L - S]: one sample,
    [L = 512], [S = 128].  The ceiling of [(1 - 512) / 128] is [-3], and the
    segmenter returns an array with no row. *)
Lemma short_recording_has_no_window :
  exists Xv yv,
    import_data disk 5 "s.wav" 0 512 128
      = Ok (Xv, yv) /\
    length (flatten_F (channels one_sample) (samples one_sample)) = 1 /\
    ((-3 - 1) * 128 < 1 - 512 <= -3 * 128)%Z /\
    shape0 Xv = 0 /\
    Z.of_nat (shape0 Xv) <> (-3)%Z.
Proof.
  exists (Arr1D []), (Arr2 5 []). repeat split; try reflexivity; try lia.
Qed.

(** ** Window length *)

(** C2.  For a positive stride and a segment length [L >= 0], every row of
    the array that [import_data] returns has exactly [L] entries, the last
    row included; when there is at least one row the array is
    two-dimensional with [L] columns. *)
Theorem import_data_rows_full_length
        (sf_read : string -> option sound) (n_classes : nat)
        (fname : string) (nclass L S : Z) (Xv : ndarray fval) (yv : ndarray Z) :
  (0 < S)%Z -> (0 <= L)%Z ->
  import_data sf_read n_classes fname nclass L S = Ok (Xv, yv) ->
  Forall (fun row => length row = Z.to_nat L) (array_rows Xv) /\
  (shape0 Xv <> 0 -> Xv = Arr2 (Z.to_nat L) (array_rows Xv)).
Proof.
  intros HS HL Himp.
  apply import_data_inv in Himp.
  destruct Himp as (snd & data & windows & _ & _ & Hseg & -> & _).
  destruct (@segments_spec (flatten_F (channels snd) data) L S HS HL)
    as (c & _ & Hseg' & Hfit).
  rewrite Hseg in Hseg'. injection Hseg' as ->.
  rewrite array_rows_np_array, shape0_np_array.
  assert (Hall : Forall (fun row => length row = Z.to_nat L)
                        (map (window (flatten_F (channels snd) data) L S)
                             (seq 0 (Z.to_nat c)))).
  { apply Forall_map, Forall_forall. intros i Hi. apply in_seq in Hi.
    apply window_length; try assumption.
    specialize (Hfit i ltac:(lia)). lia. }
  split; [exact Hall |].
  intros Hrows. apply np_array_uniform; [| exact Hall].
  intros E. rewrite E in Hrows. simpl in Hrows. congruence.
Qed.

Lemma import_data_rows_full_length_witness :
  import_data disk 3 "a.wav" 1 3 2 = Ok (stereo_windows, stereo_labels) /\
  Forall (fun row => length row = Z.to_nat 3) (array_rows stereo_windows) /\
  (shape0 stereo_windows <> 0 ->
   stereo_windows = Arr2 (Z.to_nat 3) (array_rows stereo_windows)).
Proof.
  assert (E : import_data disk 3 "a.wav" 1 3 2
              = Ok (stereo_windows, stereo_labels)) by reflexivity.
  split; [exact E |].
  apply (@import_data_rows_full_length disk 3 "a.wav" 1 3 2
           stereo_windows stereo_labels); [lia | lia | exact E].
Defined.

(** ** Normalized peak *)

(** C3.  For a recording with a sample that is not zero, let [p] be its
    peak absolute amplitude: [p] is positive, no sample exceeds it in
    absolute value and some sample attains it.  Normalization returns the
    recording with every sample divided by [p].  No normalized sample
    exceeds one in absolute value and some normalized sample attains one,
    so the maximum absolute value of the normalized recording, as [np.max]
    of [np.abs] computes it, is a finite number equal to one. *)
Theorem normalized_peak_is_one (snd : sound) :
  audible snd ->
  exists p data m,
    (0 < p)%Q /\
    Forall (Forall (fun q => (Qabs q <= p)%Q)) (frames snd) /\
    Exists (Exists (fun q => (Qabs q == p)%Q)) (frames snd) /\
    normalize (samples snd) = Ok data /\
    data = map (map (fun q => Fin (q / p)%Q)) (frames snd) /\
    Forall (Forall (fun q => (Qabs (q / p) <= 1)%Q)) (frames snd) /\
    Exists (Exists (fun q => (Qabs (q / p) == 1)%Q)) (frames snd) /\
    np_max (concat (np_abs data)) = Ok (Fin m) /\
    (m == 1)%Q.
Proof.
  intros Haud. apply audible_concat in Haud.
  assert (Hne : concat (frames snd) <> []).
  { intros E. rewrite E in Haud. inversion Haud. }
  destruct (normalize_nonempty snd Hne) as (x & l & Hxl & Hnorm).
  rewrite Hxl in Haud. pose proof (peak_positive Haud) as Hpos.
  set (p := peak x l) in *.
  assert (Hp0 : ~ (p == 0)%Q).
  { intros E. rewrite E in Hpos. now apply Qlt_irrefl in Hpos. }
  rewrite (np_divide_samples snd Hp0) in Hnorm.
  assert (Hbound : forall q, In q (x :: l) -> (Qabs (q / p) <= 1)%Q).
  { intros q Hq. rewrite (Qabs_div_pos q Hpos).
    apply Qle_shift_div_r; [exact Hpos |].
    rewrite Qmult_1_l. now apply peak_bounds. }
  destruct (peak_attained x l) as (q1 & Hq1 & Heq1). fold p in Heq1.
  assert (Hone : (Qabs (q1 / p) == 1)%Q).
  { rewrite (Qabs_div_pos q1 Hpos), Heq1. now apply Qmult_inv_r. }
  exists p. eexists _, _.
  split; [exact Hpos |].
  split.
  { apply Forall_concat. rewrite Hxl. apply Forall_forall.
    intros q Hq. now apply peak_bounds. }
  split.
  { apply Exists_concat. rewrite Hxl. apply Exists_exists.
    exists q1. now split. }
  split; [exact Hnorm |]. split; [reflexivity |].
  split.
  { apply Forall_concat. rewrite Hxl. apply Forall_forall. exact Hbound. }
  split.
  { apply Exists_concat. rewrite Hxl. apply Exists_exists.
    exists q1. now split. }
  rewrite (concat_np_abs_Fin (fun q => (q / p)%Q)), Hxl.
  split; [apply (np_max_Fin (fun q => Qabs (q / p))) |].
  apply Qle_antisym.
  - apply fold_Qmax_le. intros z Hz.
    change (In z (map (fun q => Qabs (q / p)) (x :: l))) in Hz.
    apply in_map_iff in Hz. destruct Hz as (q & <- & Hq). now apply Hbound.
  - rewrite <- Hone. destruct Hq1 as [<- | Hq1].
    + apply fold_Qmax_init.
    + apply fold_Qmax_ge. now apply (in_map (fun q => Qabs (q / p))).
Qed.

Lemma normalized_peak_is_one_witness :
  exists p data m,
    (0 < p)%Q /\
    Forall (Forall (fun q => (Qabs q <= p)%Q)) (frames quiet_clip) /\
    Exists (Exists (fun q => (Qabs q == p)%Q)) (frames quiet_clip) /\
    normalize (samples quiet_clip) = Ok data /\
    data = map (map (fun q => Fin (q / p)%Q)) (frames quiet_clip) /\
    Forall (Forall (fun q => (Qabs (q / p) <= 1)%Q)) (frames quiet_clip) /\
    Exists (Exists (fun q => (Qabs (q / p) == 1)%Q)) (frames quiet_clip) /\
    np_max (concat (np_abs data)) = Ok (Fin m) /\
    (m == 1)%Q.
Proof.
  apply (@normalized_peak_is_one quiet_clip).
  unfold audible, quiet_clip. simpl.
  apply Exists_cons_hd, Exists_cons_hd. discriminate.
Defined.

(** The clip of peak one half, normalized: every sample is doubled. *)
Example quiet_clip_normalized :
  normalize (samples quiet_clip)
  = Ok [[Fin (2 # 4); Fin (-2 # 8)]; [Fin (-2 # 2); Fin (6 # 8)]]%Q.
Proof. reflexivity. Qed.

(** ** The unguarded division *)

(** C10.  For a recording that is not empty, the divisor of the
    normalization is the peak absolute amplitude, a finite number that is
    zero exactly when the recording is silent.  Nothing guards the division:
    on a silent recording it takes the zero-divisor branch for every sample
    and the normalized array holds not-a-number everywhere; on any other
    recording every normalized sample is finite. *)
Theorem normalize_division_by_zero_iff_silent (snd : sound) :
  concat (frames snd) <> [] ->
  exists divisor data,
    np_max (concat (np_abs (samples snd))) = Ok (Fin divisor) /\
    normalize (samples snd) = Ok data /\
    data = np_divide (samples snd) (Fin divisor) /\
    (silent snd <-> (divisor == 0)%Q) /\
    (silent snd -> Forall (Forall (fun v => v = NaN)) data) /\
    (~ silent snd -> Forall (Forall (fun v => is_finite v = true)) data).
Proof.
  intros Hne.
  destruct (normalize_nonempty snd Hne) as (x & l & Hxl & Hnorm).
  exists (peak x l), (np_divide (samples snd) (Fin (peak x l))).
  assert (Hiff : silent snd <-> (peak x l == 0)%Q).
  { rewrite silent_concat, Hxl. symmetry. apply peak_zero_iff. }
  split; [now apply np_max_samples |]. split; [exact Hnorm |].
  split; [reflexivity |]. split; [exact Hiff |]. split.
  - intros Hs. rewrite (np_divide_silent (proj1 Hiff Hs) Hs).
    apply Forall_map, Forall_forall. intros fr _.
    apply Forall_map, Forall_forall. reflexivity.
  - intros Hns. rewrite np_divide_samples by (now rewrite <- Hiff).
    apply Forall_map, Forall_forall. intros fr _.
    apply Forall_map, Forall_forall. reflexivity.
Qed.

Lemma normalize_division_by_zero_iff_silent_witness :
  silent silent_clip /\
  exists divisor data,
    np_max (concat (np_abs (samples silent_clip))) = Ok (Fin divisor) /\
    normalize (samples silent_clip) = Ok data /\
    data = np_divide (samples silent_clip) (Fin divisor) /\
    (silent silent_clip <-> (divisor == 0)%Q) /\
    (silent silent_clip -> Forall (Forall (fun v => v = NaN)) data) /\
    (~ silent silent_clip ->
     Forall (Forall (fun v => is_finite v = true)) data).
Proof.
  split.
  - unfold silent, silent_clip. simpl.
    repeat (constructor; try reflexivity).
  - apply (@normalize_division_by_zero_iff_silent silent_clip). discriminate.
Defined.

(** ** Labels *)

(** C4.  Whenever [import_data] returns for class index [nclass], the index
    designates a position [p] among the [n_classes] columns ([p = nclass]
    for a non-negative index), the label array is two-dimensional with
    [n_classes] columns and one row per window, and every row has length
    [n_classes], holds 1 at position [p], 0 at every other position, and
    sums to 1. *)
Theorem import_data_labels_one_hot
        (sf_read : string -> option sound) (n_classes : nat)
        (fname : string) (nclass L S : Z) (Xv : ndarray fval) (yv : ndarray Z) :
  import_data sf_read n_classes fname nclass L S = Ok (Xv, yv) ->
  exists p rows,
    py_index n_classes nclass = Some p /\
    p < n_classes /\
    ((0 <= nclass)%Z -> p = Z.to_nat nclass) /\
    yv = Arr2 n_classes rows /\
    length rows = shape0 Xv /\
    Forall (fun row =>
              length row = n_classes /\
              nth_error row p = Some 1%Z /\
              (forall j, j < n_classes -> j <> p -> nth_error row j = Some 0%Z) /\
              sum_Z row = 1%Z) rows.
Proof.
  intros Himp. apply import_data_inv in Himp.
  destruct Himp as (snd & data & windows & _ & _ & _ & -> & Hy).
  apply one_hot_inv in Hy. destruct Hy as (p & Hp & ->).
  destruct (py_index_bound _ _ Hp) as (Hlt & Hnonneg & _).
  exists p, (repeat (one_hot_row n_classes p) (length windows)).
  repeat split; auto.
  - now rewrite repeat_length, shape0_np_array.
  - apply Forall_forall. intros row Hrow. apply repeat_spec in Hrow.
    subst row. now apply one_hot_row_spec.
Qed.

Lemma import_data_labels_one_hot_witness :
  import_data disk 3 "a.wav" 1 3 2 = Ok (stereo_windows, stereo_labels) /\
  exists p rows,
    py_index 3 1 = Some p /\
    p < 3 /\
    ((0 <= 1)%Z -> p = Z.to_nat 1) /\
    stereo_labels = Arr2 3 rows /\
    length rows = shape0 stereo_windows /\
    Forall (fun row =>
              length row = 3 /\
              nth_error row p = Some 1%Z /\
              (forall j, j < 3 -> j <> p -> nth_error row j = Some 0%Z) /\
              sum_Z row = 1%Z) rows.
Proof.
  assert (E : import_data disk 3 "a.wav" 1 3 2
              = Ok (stereo_windows, stereo_labels)) by reflexivity.
  split; [exact E |].
  apply (@import_data_labels_one_hot disk 3 "a.wav" 1 3 2
           stereo_windows stereo_labels E).
Defined.

(** ** Channel order *)

(** C6.  An array of [N] frames of two samples each flattens to a sequence
    of length [2 * N]: the first samples of all the frames in order, then
    the second samples of all the frames in order.  So position [i] holds
    sample [i] of channel 0 and position [N + i] holds sample [i] of
    channel 1. *)
Theorem flatten_two_channels_contiguous
        (A : Type) (d : A) (data : list (list A)) (N : nat) :
  length data = N ->
  Forall (fun fr => length fr = 2) data ->
  length (flatten_F 2 data) = 2 * N /\
  flatten_F 2 data
    = map (fun fr => nth 0 fr d) data ++ map (fun fr => nth 1 fr d) data /\
  forall i, i < N ->
    nth_error (flatten_F 2 data) i = nth_error (nth i data []) 0 /\
    nth_error (flatten_F 2 data) (N + i) = nth_error (nth i data []) 1.
Proof.
  intros HN Hwf.
  assert (H0 : Forall (fun fr : list A => 0 < length fr) data).
  { eapply Forall_impl; [| exact Hwf]. simpl. intros; lia. }
  assert (H1 : Forall (fun fr : list A => 1 < length fr) data).
  { eapply Forall_impl; [| exact Hwf]. simpl. intros; lia. }
  assert (Heq : flatten_F 2 data
                = map (fun fr => nth 0 fr d) data ++ map (fun fr => nth 1 fr d) data).
  { rewrite flatten_F_two, (column_nth d H0), (column_nth d H1). reflexivity. }
  split; [rewrite (flatten_F_length Hwf); lia |]. split; [exact Heq |].
  intros i Hi. rewrite Heq.
  assert (Hfr : length (nth i data []) = 2).
  { rewrite Forall_forall in Hwf. apply Hwf, nth_In. lia. }
  assert (Hlen : i < length data) by lia.
  split.
  - rewrite nth_error_app1 by (rewrite length_map; lia).
    rewrite nth_error_map, (nth_error_nth' data [] Hlen).
    destruct (nth i data []) as [| a [| b [| ? ?]]]; simpl in *;
      try discriminate; reflexivity.
  - rewrite nth_error_app2 by (rewrite length_map; lia).
    rewrite length_map, HN. replace (N + i - N) with i by lia.
    rewrite nth_error_map, (nth_error_nth' data [] Hlen).
    destruct (nth i data []) as [| a [| b [| ? ?]]]; simpl in *;
      try discriminate; reflexivity.
Qed.

Lemma flatten_two_channels_contiguous_witness :
  flatten_F 2 [[1; 2]; [3; 4]; [5; 6]] = [1; 3; 5; 2; 4; 6] /\
  length (flatten_F 2 [[1; 2]; [3; 4]; [5; 6]]) = 2 * 3 /\
  flatten_F 2 [[1; 2]; [3; 4]; [5; 6]]
    = map (fun fr => nth 0 fr 0) [[1; 2]; [3; 4]; [5; 6]]
      ++ map (fun fr => nth 1 fr 0) [[1; 2]; [3; 4]; [5; 6]] /\
  forall i, i < 3 ->
    nth_error (flatten_F 2 [[1; 2]; [3; 4]; [5; 6]]) i
      = nth_error (nth i [[1; 2]; [3; 4]; [5; 6]] []) 0 /\
    nth_error (flatten_F 2 [[1; 2]; [3; 4]; [5; 6]]) (3 + i)
      = nth_error (nth i [[1; 2]; [3; 4]; [5; 6]] []) 1.
Proof.
  split; [reflexivity |].
  apply (@flatten_two_channels_contiguous nat 0 [[1; 2]; [3; 4]; [5; 6]] 3).
  - reflexivity.
  - repeat constructor.
Defined.

(** ** The file table *)

Lemma dict_setitem_keys (d : dict) (k : string) (v : Z) (k' : string) :
  In k' (map fst (dict_setitem d k v)) <-> k' = k \/ In k' (map fst d).
Proof.
  induction d as [| [k0 v0] rest IH]; simpl.
  - intuition.
  - destruct (String.eqb_spec k0 k) as [-> | Hne]; simpl.
    + intuition.
    + rewrite IH. intuition.
Qed.

Lemma dict_setitem_NoDup (d : dict) (k : string) (v : Z) :
  NoDup (map fst d) -> NoDup (map fst (dict_setitem d k v)).
Proof.
  induction d as [| [k0 v0] rest IH]; simpl; intros Hnd.
  - constructor; [intros [] | constructor].
  - inversion Hnd as [| ? ? Hnotin Hrest]; subst.
    destruct (String.eqb_spec k0 k) as [-> | Hne]; simpl.
    + now constructor.
    + constructor; [| now apply IH].
      rewrite dict_setitem_keys. intros [-> | Hin]; auto.
Qed.

Lemma dict_get_setitem (d : dict) (k : string) (v : Z) (k' : string) :
  dict_get (dict_setitem d k v) k' =
  if String.eqb k k' then Some v else dict_get d k'.
Proof.
  induction d as [| [k0 v0] rest IH]; simpl.
  - destruct (String.eqb k k'); reflexivity.
  - destruct (String.eqb_spec k0 k) as [-> | Hne]; simpl.
    + destruct (String.eqb k k'); reflexivity.
    + rewrite IH. destruct (String.eqb_spec k0 k') as [-> | Hne'].
      * destruct (String.eqb_spec k k'); [congruence | reflexivity].
      * reflexivity.
Qed.

Lemma dict_fold_NoDup (pairs : list (string * Z)) (d : dict) :
  NoDup (map fst d) ->
  NoDup (map fst (fold_left (fun d kv => dict_setitem d (fst kv) (snd kv))
                            pairs d)).
Proof.
  revert d. induction pairs as [| [k v] rest IH]; intros d Hnd; simpl.
  - exact Hnd.
  - apply IH. now apply dict_setitem_NoDup.
Qed.

Lemma dict_fold_keys (pairs : list (string * Z)) (d : dict) (k : string) :
  In k (map fst (fold_left (fun d kv => dict_setitem d (fst kv) (snd kv))
                           pairs d))
  <-> In k (map fst pairs) \/ In k (map fst d).
Proof.
  revert d. induction pairs as [| [k0 v0] rest IH]; intros d; simpl.
  - intuition.
  - rewrite IH, dict_setitem_keys. intuition.
Qed.

Lemma dict_fold_get (pairs : list (string * Z)) (d : dict) (k : string) :
  dict_get (fold_left (fun d kv => dict_setitem d (fst kv) (snd kv)) pairs d) k
  = match last_binding pairs k with
    | Some v => Some v
    | None => dict_get d k
    end.
Proof.
  revert d. induction pairs as [| [k0 v0] rest IH]; intros d; simpl.
  - reflexivity.
  - rewrite IH. destruct (last_binding rest k); [reflexivity |].
    rewrite dict_get_setitem. destruct (String.eqb k0 k); reflexivity.
Qed.

Section LoopLength.

Variable sf_read : string -> option sound.
Variable n_classes : nat.
Variable segment_size segment_step : Z.
Variable fprefix : string.

Lemma for_loop_length (items : list (string * Z)) (st : state) :
  length (fst (for_loop sf_read n_classes segment_size segment_step fprefix
                        items st))
  <= length items.
Proof.
  revert st. induction items as [| item rest IH]; intros st; simpl.
  - lia.
  - destruct (loop_body _ _ _ _ _ st item) as [st' [e |]]; simpl; [lia |].
    specialize (IH st').
    destruct (for_loop _ _ _ _ _ rest st') as [trace e]. simpl in *. lia.
Qed.

End LoopLength.

(** C8.  A dict display keeps one entry per key: the keys of the resulting
    table are pairwise distinct, they are the keys that were written, and
    each key maps to the value of its last pair.  The table of the notebook
    is written with 20 pairs and holds 17 entries, one of them for
    [messing_nut_M4_1.wav].  The accumulation loop runs through the entries
    of the table, at most one iteration per entry, so the file names of its
    iterations are pairwise distinct. *)
Theorem flist_keeps_one_entry_per_name :
  (forall pairs,
      NoDup (map fst (dict_items (dict_literal pairs))) /\
      (forall k, In k (map fst (dict_items (dict_literal pairs)))
                 <-> In k (map fst pairs)) /\
      (forall k, dict_get (dict_literal pairs) k = last_binding pairs k)) /\
  length Notebook.flist_pairs = 20 /\
  length (dict_items Notebook.flist) = 17 /\
  count_occ string_dec (map fst (dict_items Notebook.flist))
            "messing_nut_M4_1.wav"%string = 1 /\
  (forall sf_read n_classes segment_size segment_step fprefix pairs st,
      let items := dict_items (dict_literal pairs) in
      let trace := fst (for_loop sf_read n_classes segment_size segment_step
                                 fprefix items st) in
      length trace <= length items /\ NoDup (visited items trace)).
Proof.
  split; [| split; [reflexivity | split; [reflexivity | split; [reflexivity |]]]].
  - intros pairs. unfold dict_literal, dict_items.
    split; [| split].
    + apply dict_fold_NoDup. constructor.
    + intros k. rewrite dict_fold_keys. simpl. intuition.
    + intros k. rewrite dict_fold_get. simpl.
      now destruct (last_binding pairs k).
  - intros. cbv zeta. split; [apply for_loop_length |].
    unfold visited, dict_literal, dict_items.
    eapply NoDup_app_remove_r. rewrite firstn_skipn.
    apply dict_fold_NoDup. constructor.
Qed.

(** ** The accumulation invariant *)

Lemma np_append_shape0 {A} (a b c : ndarray A) :
  np_append a b = Ok c -> shape0 c = shape0 a + shape0 b.
Proof.
  destruct a as [ia | ca ra], b as [ib | cb rb]; simpl; try discriminate.
  - intros [= <-]. unfold shape0. simpl. apply length_app.
  - destruct (ca =? cb); [| discriminate].
    intros [= <-]. unfold shape0. simpl. apply length_app.
Qed.

Lemma magnitude_spectrum_shape0 (Xv : ndarray fval) (Xf : ndarray (option R)) :
  magnitude_spectrum Xv = Ok Xf -> shape0 Xf = shape0 Xv.
Proof.
  destruct Xv as [items | n rows]; simpl; [discriminate |].
  destruct (n =? 0); [discriminate |].
  intros [= <-]. unfold shape0. simpl. apply length_map.
Qed.

Section Accumulation.

Variable sf_read : string -> option sound.
Variable n_classes : nat.
Variable segment_size segment_step : Z.
Variable fprefix : string.

Lemma initial_state_aligned (st0 : state) :
  initial_state n_classes segment_size = Ok st0 -> rows_aligned n_classes st0.
Proof.
  unfold initial_state, np_empty0.
  destruct (segment_size <? 0)%Z; [discriminate |]. simpl.
  destruct (Z.of_nat n_classes <? 0)%Z; [discriminate |]. simpl.
  intros [= <-]. split; [reflexivity |]. simpl.
  exists []. rewrite Nat2Z.id. split; [reflexivity | constructor].
Qed.

Lemma loop_body_aligned (st : state) (item : string * Z) :
  rows_aligned n_classes st ->
  rows_aligned n_classes
    (fst (loop_body sf_read n_classes segment_size segment_step fprefix
                    st item)).
Proof.
  intros Hst. unfold loop_body. destruct item as [fname nclass].
  destruct (import_data _ _ _ nclass _ _) as [[Xt yt] |] eqn:Himp;
    [| exact Hst].
  destruct (np_append (X st) Xt) as [X' |] eqn:HX; [| exact Hst].
  destruct (@import_data_labels_rows _ _ _ _ _ _ _ _ Himp)
    as (rows_t & -> & Hlen & Hcols).
  destruct Hst as (Hrows & rows & Hy & Hall). rewrite Hy. simpl.
  rewrite Nat.eqb_refl. simpl. split.
  - simpl. rewrite (@np_append_shape0 _ _ _ _ HX), Hrows, Hy, <- Hlen.
    unfold shape0. simpl. now rewrite length_app.
  - simpl. exists (rows ++ rows_t). split; [reflexivity |].
    apply Forall_app. now split.
Qed.

Lemma for_loop_aligned (items : list (string * Z)) (st : state) :
  rows_aligned n_classes st ->
  Forall (rows_aligned n_classes)
         (fst (for_loop sf_read n_classes segment_size segment_step fprefix
                        items st)).
Proof.
  revert st. induction items as [| item rest IH]; intros st Hst; simpl.
  - constructor.
  - pose proof (@loop_body_aligned st item Hst) as Hstep.
    destruct (loop_body _ _ _ _ _ st item) as [st' [e |]]; simpl in *.
    + constructor; [exact Hstep | constructor].
    + specialize (IH st' Hstep).
      destruct (for_loop _ _ _ _ _ rest st') as [trace e]. simpl in *.
      now constructor.
Qed.

End Accumulation.

Lemma Forall_last {A} (P : A -> Prop) (d : A) (l : list A) :
  Forall P (d :: l) -> P (last l d).
Proof.
  revert d. induction l as [| a l IH]; intros d H; simpl.
  - now inversion H.
  - inversion H as [| ? ? Hd Hl]; subst. destruct l as [| b l'].
    + now inversion Hl.
    + apply IH. inversion Hl; subst. now constructor.
Qed.

(** C5.  From the initial pair of empty arrays on, the state at the end of
    every iteration of the accumulation loop (an iteration ended by an
    exception included) has as many feature rows as label rows, and its
    label array is two-dimensional with [n_classes] columns.  When the whole
    cell returns, the feature matrix and the label matrix it returns have
    the same number of rows and the label matrix has [n_classes] columns. *)
Theorem accumulation_rows_aligned
        (sf_read : string -> option sound) (n_classes : nat)
        (segment_size segment_step : Z) (fprefix : string)
        (flist : dict) (st0 : state) :
  initial_state n_classes segment_size = Ok st0 ->
  Forall (rows_aligned n_classes)
         (st0 :: fst (for_loop sf_read n_classes segment_size segment_step
                               fprefix (dict_items flist) st0)) /\
  forall Xf yf,
    preprocess sf_read n_classes segment_size segment_step fprefix flist
      = Ok (Xf, yf) ->
    shape0 Xf = shape0 yf /\
    exists rows,
      yf = Arr2 n_classes rows /\
      Forall (fun row => length row = n_classes) rows.
Proof.
  intros Hinit.
  pose proof (@initial_state_aligned _ _ _ Hinit) as H0.
  pose proof (@for_loop_aligned sf_read n_classes segment_size segment_step
                                fprefix (dict_items flist) st0 H0) as Htrace.
  assert (Hall : Forall (rows_aligned n_classes)
                        (st0 :: fst (for_loop sf_read n_classes segment_size
                                              segment_step fprefix
                                              (dict_items flist) st0))).
  { now constructor. }
  split; [exact Hall |].
  intros Xf yf. unfold preprocess. rewrite Hinit. simpl.
  destruct (for_loop _ _ _ _ _ (dict_items flist) st0) as [trace e].
  destruct e as [e |]; [discriminate |]. simpl in Hall.
  apply Forall_last in Hall. destruct Hall as (Hrows & Hcols).
  destruct (magnitude_spectrum (X (last trace st0))) as [Xm |] eqn:Hm;
    [| discriminate].
  simpl. intros [= <- <-]. split; [| exact Hcols].
  rewrite (@magnitude_spectrum_shape0 _ _ Hm). exact Hrows.
Qed.

Lemma accumulation_rows_aligned_witness :
  fst (for_loop disk 3 3 2 "" (dict_items [("a.wav", 1); ("z.wav", 0)]%string%Z)
                (mkState (Arr2 3 []) (Arr2 3 [])))
  = [ mkState stereo_windows stereo_labels;
      mkState (Arr2 3 [[Fin (1 # 2); Fin (-1 # 1); Fin (1 # 3)];
                       [Fin (1 # 3); Fin (0 # 1); Fin (1 # 4)];
                       [Fin (1 # 4); Fin (0 # 1); Fin (1 # 5)];
                       [NaN; NaN; NaN]]%Q)
              (Arr2 3 [[0; 1; 0]; [0; 1; 0]; [0; 1; 0]; [1; 0; 0]]%Z) ] /\
  (Forall (rows_aligned 3)
          (mkState (Arr2 3 []) (Arr2 3 [])
           :: fst (for_loop disk 3 3 2 ""
                            (dict_items [("a.wav", 1); ("z.wav", 0)]%string%Z)
                            (mkState (Arr2 3 []) (Arr2 3 [])))) /\
   forall Xf yf,
     preprocess disk 3 3 2 "" [("a.wav", 1); ("z.wav", 0)]%string%Z
       = Ok (Xf, yf) ->
     shape0 Xf = shape0 yf /\
     exists rows,
       yf = Arr2 3 rows /\ Forall (fun row => length row = 3) rows).
Proof.
  split; [vm_compute; reflexivity |].
  apply (@accumulation_rows_aligned disk 3 3 2 ""
           [("a.wav", 1); ("z.wav", 0)]%string%Z
           (mkState (Arr2 3 []) (Arr2 3 []))).
  reflexivity.
Defined.

(** ** The magnitude spectrum *)

Lemma finite_row_total (row : list fval) :
  Forall (fun v => is_finite v = true) row ->
  exists xs, finite_row row = Some xs.
Proof.
  induction 1 as [| v row Hv _ (xs & IH)]; simpl.
  - now exists [].
  - destruct v as [q | s |]; try discriminate.
    rewrite IH. simpl. now exists (q :: xs).
Qed.

Lemma rfft_abs_length (n : nat) (row : list fval) :
  length (rfft_abs n row) = n / 2 + 1.
Proof.
  unfold rfft_abs. destruct (finite_row row).
  - now rewrite length_map, length_seq.
  - apply repeat_length.
Qed.

Lemma rfft_abs_nonneg (n : nat) (row : list fval) :
  Forall (fun v => is_finite v = true) row ->
  Forall (fun e => exists r, e = Some r /\ (0 <= r)%R) (rfft_abs n row).
Proof.
  intros Hfin. destruct (@finite_row_total _ Hfin) as (xs & Hxs).
  unfold rfft_abs. rewrite Hxs. apply Forall_map, Forall_forall.
  intros k _. eexists. split; [reflexivity | apply sqrt_pos].
Qed.

(** The spectrum of a unit impulse is flat. *)
Example rfft_abs_impulse :
  rfft_abs 2 [Fin 1; Fin 0] = [Some 1%R; Some 1%R].
Proof.
  unfold rfft_abs, dft_re, dft_im. simpl.
  assert (H1 : Q2R 1 = 1%R) by (unfold Q2R; simpl; lra).
  assert (H0 : Q2R 0 = 0%R) by (unfold Q2R; simpl; lra).
  rewrite H1, H0.
  replace (2 * PI * 0 * 0 / (1 + 1))%R with 0%R by lra.
  replace (2 * PI * 1 * 0 / (1 + 1))%R with 0%R by lra.
  rewrite cos_0, sin_0.
  replace (Rsqr (1 * 1 + (0 * cos (2 * PI * 0 * 1 / (1 + 1)) + 0))
           + Rsqr (- (1 * 0) + (- (0 * sin (2 * PI * 0 * 1 / (1 + 1))) + 0)))%R
    with 1%R by (unfold Rsqr; lra).
  replace (Rsqr (1 * 1 + (0 * cos (2 * PI * 1 * 1 / (1 + 1)) + 0))
           + Rsqr (- (1 * 0) + (- (0 * sin (2 * PI * 1 * 1 / (1 + 1))) + 0)))%R
    with 1%R by (unfold Rsqr; lra).
  now rewrite sqrt_1.
Qed.

(** C7 (as amended).  For a raw-segment matrix with [L >= 1] columns the
    magnitude-spectrum step returns a matrix with as many rows and
    [L / 2 + 1] columns (257 for [L = 512]), every row of which has
    [L / 2 + 1] entries; the spectrum of a row whose samples are all finite
    numbers consists of non-negative numbers. *)
Theorem magnitude_spectrum_shape_and_sign (L : nat) (rows : list (list fval)) :
  1 <= L ->
  exists feats,
    magnitude_spectrum (Arr2 L rows) = Ok (Arr2 (L / 2 + 1) feats) /\
    length feats = length rows /\
    Forall (fun f => length f = L / 2 + 1) feats /\
    (L = 512 -> L / 2 + 1 = 257) /\
    forall i row,
      nth_error rows i = Some row ->
      Forall (fun v => is_finite v = true) row ->
      exists f,
        nth_error feats i = Some f /\
        Forall (fun e => exists r, e = Some r /\ (0 <= r)%R) f.
Proof.
  intros HL. exists (map (rfft_abs L) rows). unfold magnitude_spectrum.
  destruct (Nat.eqb_spec L 0); [lia |].
  split; [reflexivity |]. split; [apply length_map |]. split.
  - apply Forall_map, Forall_forall. intros row _. apply rfft_abs_length.
  - split; [intros ->; reflexivity |].
    intros i row Hrow Hfin. exists (rfft_abs L row). split.
    + rewrite nth_error_map, Hrow. reflexivity.
    + now apply rfft_abs_nonneg.
Qed.

Lemma magnitude_spectrum_shape_and_sign_witness :
  exists feats,
    magnitude_spectrum (Arr2 2 [[Fin 1; Fin 0]; [NaN; NaN]])
      = Ok (Arr2 (2 / 2 + 1) feats) /\
    length feats = length [[Fin 1; Fin 0]; [NaN; NaN]] /\
    Forall (fun f => length f = 2 / 2 + 1) feats /\
    (2 = 512 -> 2 / 2 + 1 = 257) /\
    forall i row,
      nth_error [[Fin 1; Fin 0]; [NaN; NaN]] i = Some row ->
      Forall (fun v => is_finite v = true) row ->
      exists f,
        nth_error feats i = Some f /\
        Forall (fun e => exists r, e = Some r /\ (0 <= r)%R) f.
Proof.
  apply (@magnitude_spectrum_shape_and_sign 2 [[Fin 1; Fin 0]; [NaN; NaN]]).
  lia.
Defined.

(** C7 as stated fails on the rows cut from a silent recording: the
    accumulation loop assembles rows of not-a-number values from it, and
    the entries of their spectrum are not numbers, so they are not
    non-negative.  It also fails for [L = 0], a transform length that the
    step refuses. *)
Lemma silent_recording_spectrum_not_a_number :
  silent silent_clip /\
  for_loop disk 3 2 1 "" [("z.wav", 0)]%string%Z
           (mkState (Arr2 2 []) (Arr2 3 []))
  = ([mkState (Arr2 2 [[NaN; NaN]; [NaN; NaN]])
              (Arr2 3 [[1; 0; 0]; [1; 0; 0]]%Z)], None) /\
  magnitude_spectrum (Arr2 2 [[NaN; NaN]; [NaN; NaN]])
  = Ok (Arr2 2 [[None; None]; [None; None]]) /\
  preprocess disk 3 2 1 "" [("z.wav", 0)]%string%Z
  = Ok (Arr2 2 [[None; None]; [None; None]], Arr2 3 [[1; 0; 0]; [1; 0; 0]]%Z) /\
  ~ Forall (Forall (fun e : option R => exists r, e = Some r /\ (0 <= r)%R))
           [[None; None]; [None; None]] /\
  magnitude_spectrum (Arr2 0 [[]; []]) = Raise ValueError.
Proof.
  split; [| split; [| split; [| split; [| split; [| reflexivity]]]]].
  - unfold silent, silent_clip. simpl. repeat (constructor; try reflexivity).
  - vm_compute. reflexivity.
  - reflexivity.
  - reflexivity.
  - intros H. inversion H as [| ? ? Hrow _]; subst.
    inversion Hrow as [| ? ? (r & Hr & _) _]; subst. discriminate.
Qed.

(** ** Recordings no longer than one segment *)

(** C9 (as amended).  For a recording that can be read, holds at least one
    sample, has a flattened length [N <= L] and a class index within bounds,
    for a positive stride, and with [L] and [S] below [2 ^ 53] (the range in
    which the binary64 quotient gives the exact ceiling), [import_data]
    raises nothing and returns a feature array and a label array without
    rows: the one-dimensional empty array and the empty array with
    [n_classes] columns. *)
Theorem import_data_short_recording
        (sf_read : string -> option sound) (n_classes : nat)
        (fname : string) (nclass L S : Z) (snd : sound) (p : nat) :
  sf_read fname = Some snd ->
  well_formed snd ->
  (1 <= Z.of_nat (length (flatten_F (channels snd) (samples snd))) <= L)%Z ->
  (L < 2 ^ 53)%Z ->
  (0 < S < 2 ^ 53)%Z ->
  py_index n_classes nclass = Some p ->
  exists Xv yv,
    import_data sf_read n_classes fname nclass L S = Ok (Xv, yv) /\
    Xv = Arr1D [] /\ yv = Arr2 n_classes [] /\
    shape0 Xv = 0 /\ shape0 yv = 0.
Proof.
  intros Hread Hwf [HN1 HNL] _ [HS _] Hp.
  destruct (samples_shape Hwf) as (Hshape & Hlen).
  rewrite (flatten_F_length Hshape) in HN1, HNL.
  assert (Hne : concat (frames snd) <> []).
  { intros E. apply (f_equal (@length Q)) in E.
    rewrite (concat_length_uniform Hwf) in E. simpl in E. lia. }
  destruct (normalize_nonempty snd Hne) as (x & l & _ & Hnorm).
  set (data := np_divide (samples snd) (Fin (peak x l))) in *.
  destruct (np_divide_shape (Fin (peak x l)) Hshape) as (Hshape' & Hlen').
  fold data in Hshape', Hlen'.
  destruct (@segments_spec (flatten_F (channels snd) data) L S HS ltac:(lia))
    as (c & Hc & Hseg & _).
  rewrite (flatten_F_length Hshape'), Hlen' in Hc.
  replace (Z.to_nat c) with 0 in Hseg by nia. simpl in Hseg.
  exists (Arr1D []), (Arr2 n_classes []). split; [| repeat split].
  change (Arr1D []) with (@np_array fval []).
  eapply import_data_intro;
    [exact Hread | exact Hnorm | exact Hseg | ].
  simpl. now rewrite (@one_hot_valid n_classes 0 nclass p Hp).
Qed.

Lemma import_data_short_recording_witness :
  exists Xv yv,
    import_data disk 5 "s.wav" 0 512 128 = Ok (Xv, yv) /\
    Xv = Arr1D [] /\ yv = Arr2 5 [] /\
    shape0 Xv = 0 /\ shape0 yv = 0.
Proof.
  apply (@import_data_short_recording disk 5 "s.wav" 0 512 128 one_sample 0).
  - reflexivity.
  - repeat constructor.
  - simpl. lia.
  - lia.
  - lia.
  - reflexivity.
Defined.

(** C9 as stated fails twice.  A file without frames has flattened length
    [0 <= L], and [import_data] raises on it, because an empty array has no
    maximum.  A file with one sample makes [import_data] return arrays
    without rows, but the feature array is one-dimensional, so appending it
    to the two-dimensional accumulator raises and the cell stops there: the
    file does not pass unnoticed. *)
Lemma short_recording_raises :
  length (flatten_F (channels empty_clip) (samples empty_clip)) = 0 /\
  import_data disk 5 "e.wav" 0 512 128 = Raise ValueError /\
  length (flatten_F (channels one_sample) (samples one_sample)) = 1 /\
  import_data disk 5 "s.wav" 0 512 128 = Ok (Arr1D [], Arr2 5 []) /\
  np_append (Arr2 512 []) (@Arr1D fval []) = Raise ValueError /\
  loop_body disk 5 512 128 "" (mkState (Arr2 512 []) (Arr2 5 []))
            ("s.wav"%string, 0%Z)
  = (mkState (Arr2 512 []) (Arr2 5 []), Some ValueError) /\
  preprocess disk 5 512 128 "" [("s.wav", 0)]%string%Z = Raise ValueError.
Proof.
  repeat split.
Qed.

(** * Further properties of the code *)

(** ** The outcome of [import_data] *)

Lemma normalize_inv (data data' : list (list fval)) :
  normalize data = Ok data' -> exists m, data' = np_divide data m.
Proof.
  unfold normalize. destruct (np_max (concat (np_abs data))) as [m |];
    [| discriminate].
  simpl. intros [= <-]. now exists m.
Qed.

Lemma normalize_empty (clip : sound) :
  concat (frames clip) = [] -> normalize (samples clip) = Raise ValueError.
Proof.
  intros E. unfold normalize. rewrite concat_np_abs_samples, E. reflexivity.
Qed.

Lemma flattened_length (clip : sound) (data : list (list fval)) :
  well_formed clip ->
  normalize (samples clip) = Ok data ->
  length (flatten_F (channels clip) data)
  = channels clip * length (frames clip).
Proof.
  intros Hwf Hn. apply normalize_inv in Hn. destruct Hn as (m & ->).
  destruct (samples_shape Hwf) as (Hshape & Hlen).
  destruct (np_divide_shape m Hshape) as (Hshape' & Hlen').
  now rewrite (flatten_F_length Hshape'), Hlen', Hlen.
Qed.

(** [import_data] returns for a file that can be read and holds a sample,
    a stride that is not zero and a class index within bounds. *)
Lemma import_data_returns
      (sf_read : string -> option sound) (n_classes : nat)
      (fname : string) (nclass L S : Z) (clip : sound) (p : nat) :
  sf_read fname = Some clip ->
  concat (frames clip) <> [] ->
  S <> 0%Z ->
  py_index n_classes nclass = Some p ->
  exists Xv,
    import_data sf_read n_classes fname nclass L S
    = Ok (Xv, Arr2 n_classes (repeat (one_hot_row n_classes p) (shape0 Xv))).
Proof.
  intros Hread Hne HS Hp. unfold import_data, read. rewrite Hread. simpl.
  destruct (normalize_nonempty clip Hne) as (x & l & _ & ->). simpl.
  unfold segments, ceil_div. destruct (Z.eqb_spec S 0); [congruence |]. simpl.
  eexists. now rewrite (@one_hot_valid n_classes _ nclass p Hp).
Qed.

(** X1.  For a segment length and a stride that are not negative, and with
    both and the length of the flattened samples below [2 ^ 53] (the range
    in which the binary64 quotient gives the exact ceiling), [import_data]
    fails on the first of these that applies, and returns otherwise: the
    file cannot be read ([RuntimeError]); it holds no sample ([ValueError],
    from the maximum of an empty array); the stride is zero
    ([ZeroDivisionError]); the class index is out of bounds ([IndexError],
    even when no window is cut).  When it returns, the label array has one
    one-hot row per row of the feature array. *)
Theorem import_data_outcome
        (sf_read : string -> option sound) (n_classes : nat)
        (fname : string) (nclass L S : Z) :
  (0 <= L < 2 ^ 53)%Z ->
  (0 <= S < 2 ^ 53)%Z ->
  (forall clip,
      sf_read fname = Some clip ->
      (Z.of_nat (length (flatten_F (channels clip) (samples clip)))
       < 2 ^ 53)%Z) ->
  match sf_read fname with
  | None =>
      import_data sf_read n_classes fname nclass L S = Raise RuntimeError
  | Some clip =>
      match concat (frames clip) with
      | [] =>
          import_data sf_read n_classes fname nclass L S = Raise ValueError
      | _ :: _ =>
          if (S =? 0)%Z then
            import_data sf_read n_classes fname nclass L S
            = Raise ZeroDivisionError
          else
            match py_index n_classes nclass with
            | None =>
                import_data sf_read n_classes fname nclass L S
                = Raise IndexError
            | Some p =>
                exists Xv,
                  import_data sf_read n_classes fname nclass L S
                  = Ok (Xv, Arr2 n_classes
                                 (repeat (one_hot_row n_classes p) (shape0 Xv)))
            end
      end
  end.
Proof.
  intros _ _ _.
  unfold import_data, read. destruct (sf_read fname) as [clip |];
    [| reflexivity].
  simpl. destruct (concat (frames clip)) as [| x l] eqn:E.
  - now rewrite (normalize_empty clip E).
  - assert (Hne : concat (frames clip) <> []) by (rewrite E; discriminate).
    destruct (normalize_nonempty clip Hne) as (x' & l' & _ & ->). simpl.
    unfold segments, ceil_div. destruct (S =? 0)%Z; [reflexivity |]. simpl.
    destruct (py_index n_classes nclass) as [p |] eqn:Hp.
    + eexists. now rewrite (@one_hot_valid n_classes _ nclass p Hp).
    + unfold one_hot, np_zeros, set_column. now rewrite Hp.
Qed.

Lemma import_data_outcome_witness :
  (exists Xv,
      import_data disk 3 "a.wav" 1 3 2
      = Ok (Xv, Arr2 3 (repeat (one_hot_row 3 1) (shape0 Xv)))) /\
  import_data disk 3 "a.wav" 1 3 0 = Raise ZeroDivisionError /\
  import_data disk 3 "a.wav" 3 3 2 = Raise IndexError /\
  import_data disk 3 "e.wav" 1 3 2 = Raise ValueError /\
  import_data disk 3 "missing.wav" 1 3 2 = Raise RuntimeError.
Proof.
  assert (Hdisk : forall fname clip,
             disk fname = Some clip ->
             (Z.of_nat (length (flatten_F (channels clip) (samples clip)))
              < 2 ^ 53)%Z).
  { intros fname clip. unfold disk.
    repeat (destruct (String.eqb fname _); [intros [= <-]; simpl; lia |]).
    discriminate. }
  split; [| split; [| split; [| split]]].
  - apply (@import_data_outcome disk 3 "a.wav" 1 3 2);
      [lia | lia | apply Hdisk].
  - apply (@import_data_outcome disk 3 "a.wav" 1 3 0);
      [lia | lia | apply Hdisk].
  - apply (@import_data_outcome disk 3 "a.wav" 3 3 2);
      [lia | lia | apply Hdisk].
  - apply (@import_data_outcome disk 3 "e.wav" 1 3 2);
      [lia | lia | apply Hdisk].
  - apply (@import_data_outcome disk 3 "missing.wav" 1 3 2);
      [lia | lia | apply Hdisk].
Defined.

(** ** Overlap of consecutive windows *)

(** X2.  With a stride [0 < S <= L], two consecutive rows of the array that
    [import_data] returns overlap by [L - S] samples: a row without its
    first [S] samples is the beginning of the next row. *)
Theorem consecutive_windows_overlap
        (sf_read : string -> option sound) (n_classes : nat)
        (fname : string) (nclass L S : Z) (Xv : ndarray fval) (yv : ndarray Z)
        (i : nat) (w1 w2 : list fval) :
  (0 < S <= L)%Z ->
  import_data sf_read n_classes fname nclass L S = Ok (Xv, yv) ->
  nth_error (array_rows Xv) i = Some w1 ->
  nth_error (array_rows Xv) (i + 1) = Some w2 ->
  skipn (Z.to_nat S) w1 = firstn (Z.to_nat (L - S)) w2 /\
  length (skipn (Z.to_nat S) w1) = Z.to_nat (L - S).
Proof.
  intros [HS HSL] Himp H1 H2.
  apply import_data_inv in Himp.
  destruct Himp as (clip & data & windows & _ & _ & Hseg & -> & _).
  destruct (@segments_spec (flatten_F (channels clip) data) L S HS ltac:(lia))
    as (c & _ & Hseg' & Hfit).
  rewrite Hseg in Hseg'. injection Hseg' as ->.
  rewrite array_rows_np_array in H1, H2.
  rewrite nth_error_map, nth_error_seq in H1, H2.
  destruct (Nat.ltb_spec i (Z.to_nat c)); [| discriminate].
  destruct (Nat.ltb_spec (i + 1) (Z.to_nat c)); [| discriminate].
  simpl in H1, H2. injection H1 as <-. injection H2 as <-.
  assert (Hw : skipn (Z.to_nat S) (window (flatten_F (channels clip) data) L S i)
               = firstn (Z.to_nat (L - S))
                        (window (flatten_F (channels clip) data) L S (i + 1))).
  { unfold window. rewrite skipn_firstn_comm, skipn_skipn, firstn_firstn.
    f_equal; [lia | f_equal; lia]. }
  split; [exact Hw |].
  rewrite length_skipn, window_length; try lia.
  specialize (Hfit i ltac:(lia)). lia.
Qed.

Lemma consecutive_windows_overlap_witness :
  skipn (Z.to_nat 2) [Fin (1 # 2); Fin (-1 # 1); Fin (1 # 3)]%Q
  = firstn (Z.to_nat (3 - 2)) [Fin (1 # 3); Fin (0 # 1); Fin (1 # 4)]%Q /\
  length (skipn (Z.to_nat 2) [Fin (1 # 2); Fin (-1 # 1); Fin (1 # 3)]%Q)
  = Z.to_nat (3 - 2).
Proof.
  apply (@consecutive_windows_overlap disk 3 "a.wav" 1 3 2
           stereo_windows stereo_labels 0).
  - lia.
  - reflexivity.
  - reflexivity.
  - reflexivity.
Defined.

(** ** Where the windows stop *)

(** X3.  With a positive stride, and with the stride, the segment length
    and the length [N] of the flattened samples below [2 ^ 53] (the range in
    which the binary64 quotient gives the exact ceiling), [import_data] has
    a row for offset [i * S] exactly when the window ends strictly before
    the end of the flattened samples, [i * S + L < N].  A window that would
    end on the last sample is not cut, so the last sample of a recording is
    in no window. *)
Theorem window_cut_iff_ends_before_last_sample
        (sf_read : string -> option sound) (n_classes : nat)
        (fname : string) (nclass L S : Z) (clip : sound)
        (Xv : ndarray fval) (yv : ndarray Z) :
  sf_read fname = Some clip ->
  well_formed clip ->
  (0 < S < 2 ^ 53)%Z -> (0 <= L < 2 ^ 53)%Z ->
  (Z.of_nat (channels clip * length (frames clip)) < 2 ^ 53)%Z ->
  import_data sf_read n_classes fname nclass L S = Ok (Xv, yv) ->
  forall i : nat,
    i < shape0 Xv <->
    (Z.of_nat i * S + L < Z.of_nat (channels clip * length (frames clip)))%Z.
Proof.
  intros Hread Hwf [HS _] [HL _] _ Himp i.
  apply import_data_inv in Himp.
  destruct Himp as (clip' & data & windows & Hread' & Hnorm & Hseg & -> & _).
  rewrite Hread in Hread'. injection Hread' as <-.
  destruct (@segments_spec (flatten_F (channels clip) data) L S HS HL)
    as (c & Hc & Hseg' & Hfit).
  rewrite Hseg in Hseg'. injection Hseg' as ->.
  rewrite (flattened_length Hwf Hnorm) in Hc, Hfit.
  rewrite shape0_np_array, length_map, length_seq. split.
  - apply Hfit.
  - intros Hi. nia.
Qed.

Lemma window_cut_iff_ends_before_last_sample_witness :
  (2 < shape0 stereo_windows <->
   (Z.of_nat 2 * 2 + 3
    < Z.of_nat (channels stereo_clip * length (frames stereo_clip)))%Z) /\
  (3 < shape0 stereo_windows <->
   (Z.of_nat 3 * 2 + 3
    < Z.of_nat (channels stereo_clip * length (frames stereo_clip)))%Z).
Proof.
  assert (H : forall i : nat,
             i < shape0 stereo_windows <->
             (Z.of_nat i * 2 + 3
              < Z.of_nat (channels stereo_clip
                          * length (frames stereo_clip)))%Z).
  { apply (@window_cut_iff_ends_before_last_sample disk 3 "a.wav" 1 3 2
             stereo_clip stereo_windows stereo_labels).
    - reflexivity.
    - repeat constructor.
    - lia.
    - lia.
    - simpl. lia.
    - reflexivity. }
  split; apply H.
Defined.

(** An instance where a window that fits is not cut: eight flattened
    samples, windows of four samples every two samples.  The windows at
    offsets 0 and 2 are rows; the four samples from offset 4 on are not. *)
Example window_on_last_sample_not_cut :
  exists Xv yv data,
    import_data disk 3 "a.wav" 1 4 2 = Ok (Xv, yv) /\
    normalize (samples stereo_clip) = Ok data /\
    shape0 Xv = 2 /\
    length (py_slice (flatten_F 2 data) 4 8) = 4.
Proof.
  destruct (import_data disk 3 "a.wav" 1 4 2) as [[Xv yv] |] eqn:E;
    vm_compute in E; [| discriminate].
  destruct (normalize (samples stereo_clip)) as [data |] eqn:En;
    vm_compute in En; [| discriminate].
  exists Xv, yv, data. injection E as <- <-. injection En as <-.
  repeat split.
Qed.

(** ** The values in the windows *)

Lemma In_py_slice {A} (l : list A) (a b : Z) (v : A) :
  In v (py_slice l a b) -> In v l.
Proof.
  unfold py_slice. intros H.
  set (lo := Z.to_nat (slice_bound (Z.of_nat (length l)) a)) in *.
  set (n := Z.to_nat (slice_bound (Z.of_nat (length l)) b
                      - slice_bound (Z.of_nat (length l)) a)) in *.
  rewrite <- (firstn_skipn lo l). apply in_or_app. right.
  rewrite <- (firstn_skipn n (skipn lo l)). apply in_or_app. now left.
Qed.

Lemma In_flatten_F {A} (c : nat) (data : list (list A)) (v : A) :
  In v (flatten_F c data) -> exists fr, In fr data /\ In v fr.
Proof.
  unfold flatten_F, column. intros H.
  apply in_flat_map in H. destruct H as (j & _ & H).
  apply in_flat_map in H. destruct H as (fr & Hfr & H).
  exists fr. split; [exact Hfr |].
  destruct (nth_error fr j) as [x |] eqn:E; [| contradiction].
  destruct H as [<- | []]. eapply nth_error_In; eauto.
Qed.

(** Every entry of every row comes from the normalized array. *)
Lemma import_data_entries
      (sf_read : string -> option sound) (n_classes : nat)
      (fname : string) (nclass L S : Z) (Xv : ndarray fval) (yv : ndarray Z)
      (P : fval -> Prop) :
  import_data sf_read n_classes fname nclass L S = Ok (Xv, yv) ->
  (forall clip data,
      sf_read fname = Some clip -> normalize (samples clip) = Ok data ->
      Forall (Forall P) data) ->
  Forall (Forall P) (array_rows Xv).
Proof.
  intros Himp HP. apply import_data_inv in Himp.
  destruct Himp as (clip & data & windows & Hread & Hnorm & Hseg & -> & _).
  specialize (HP clip data Hread Hnorm). rewrite array_rows_np_array.
  unfold segments in Hseg.
  destruct (ceil_div _ S) as [nseg |]; [| discriminate].
  simpl in Hseg. injection Hseg as <-.
  apply Forall_map, Forall_forall. intros i _.
  apply Forall_forall. intros v Hv.
  apply In_py_slice, In_flatten_F in Hv. destruct Hv as (fr & Hfr & Hv).
  rewrite Forall_forall in HP. specialize (HP fr Hfr).
  rewrite Forall_forall in HP. now apply HP.
Qed.

Lemma normalize_audible_values (clip : sound) (data : list (list fval)) :
  audible clip ->
  normalize (samples clip) = Ok data ->
  Forall (Forall (fun v => exists q, v = Fin q /\ (Qabs q <= 1)%Q)) data.
Proof.
  intros Haud Hnorm. apply audible_concat in Haud.
  assert (Hne : concat (frames clip) <> []).
  { intros E. rewrite E in Haud. inversion Haud. }
  destruct (normalize_nonempty clip Hne) as (x & l & Hxl & Hnorm').
  rewrite Hnorm in Hnorm'. injection Hnorm' as ->.
  rewrite Hxl in Haud. pose proof (peak_positive Haud) as Hpos.
  assert (Hp0 : ~ (peak x l == 0)%Q).
  { intros E. rewrite E in Hpos. now apply Qlt_irrefl in Hpos. }
  rewrite (np_divide_samples clip Hp0).
  apply Forall_map, Forall_forall. intros fr Hfr.
  apply Forall_map, Forall_forall. intros q Hq.
  exists (q / peak x l)%Q. split; [reflexivity |].
  rewrite (Qabs_div_pos q Hpos). apply Qle_shift_div_r; [exact Hpos |].
  rewrite Qmult_1_l. apply peak_bounds. rewrite <- Hxl.
  apply in_concat. now exists fr.
Qed.

Lemma normalize_silent_values (clip : sound) (data : list (list fval)) :
  silent clip ->
  normalize (samples clip) = Ok data ->
  Forall (Forall (fun v => v = NaN)) data.
Proof.
  intros Hs Hnorm.
  destruct (concat (frames clip)) as [| x l] eqn:E.
  - rewrite (normalize_empty clip E) in Hnorm. discriminate.
  - assert (Hne : concat (frames clip) <> []) by (rewrite E; discriminate).
    destruct (normalize_nonempty clip Hne) as (x' & l' & Hxl & Hnorm').
    rewrite Hnorm in Hnorm'. injection Hnorm' as ->.
    assert (H0 : (peak x' l' == 0)%Q).
    { apply peak_zero_iff. rewrite <- Hxl. now apply silent_concat. }
    rewrite (np_divide_silent H0 Hs).
    apply Forall_map, Forall_forall. intros fr _.
    apply Forall_map, Forall_forall. reflexivity.
Qed.

(** X4.  Every entry of every window cut from a recording with a sample
    that is not zero is a finite number of absolute value at most one. *)
Theorem audible_windows_within_unit
        (sf_read : string -> option sound) (n_classes : nat)
        (fname : string) (nclass L S : Z) (clip : sound)
        (Xv : ndarray fval) (yv : ndarray Z) :
  sf_read fname = Some clip ->
  audible clip ->
  import_data sf_read n_classes fname nclass L S = Ok (Xv, yv) ->
  Forall (Forall (fun v => exists q, v = Fin q /\ (Qabs q <= 1)%Q))
         (array_rows Xv).
Proof.
  intros Hread Haud Himp.
  apply (@import_data_entries sf_read n_classes fname nclass L S Xv yv _ Himp).
  intros clip' data Hread' Hnorm. rewrite Hread in Hread'.
  injection Hread' as <-.
  now apply (@normalize_audible_values clip data).
Qed.

Lemma audible_windows_within_unit_witness :
  Forall (Forall (fun v => exists q, v = Fin q /\ (Qabs q <= 1)%Q))
         (array_rows stereo_windows).
Proof.
  apply (@audible_windows_within_unit disk 3 "a.wav" 1 3 2
           stereo_clip stereo_windows stereo_labels).
  - reflexivity.
  - unfold audible, stereo_clip. simpl.
    apply Exists_cons_hd, Exists_cons_hd. discriminate.
  - reflexivity.
Defined.

(** X5.  A silent recording that holds at least one sample goes through
    [import_data] without an exception (for a positive stride, a segment
    length that is not negative, both and the length of the flattened
    samples below [2 ^ 53], and a class index within bounds), and every
    entry of every window cut from it is not-a-number. *)
Theorem silent_recording_gives_nan_windows
        (sf_read : string -> option sound) (n_classes : nat)
        (fname : string) (nclass L S : Z) (clip : sound) (p : nat) :
  sf_read fname = Some clip ->
  silent clip ->
  concat (frames clip) <> [] ->
  (0 < S < 2 ^ 53)%Z ->
  (0 <= L < 2 ^ 53)%Z ->
  (Z.of_nat (length (flatten_F (channels clip) (samples clip))) < 2 ^ 53)%Z ->
  py_index n_classes nclass = Some p ->
  exists Xv yv,
    import_data sf_read n_classes fname nclass L S = Ok (Xv, yv) /\
    Forall (Forall (fun v => v = NaN)) (array_rows Xv).
Proof.
  intros Hread Hs Hne [HS _] _ _ Hp.
  destruct (@import_data_returns sf_read n_classes fname nclass L S clip p
              Hread Hne ltac:(lia) Hp) as (Xv & Himp).
  eexists Xv, _. split; [exact Himp |].
  apply (@import_data_entries sf_read n_classes fname nclass L S Xv _ _ Himp).
  intros clip' data Hread' Hnorm. rewrite Hread in Hread'.
  injection Hread' as <-.
  now apply (@normalize_silent_values clip data).
Qed.

Lemma silent_recording_gives_nan_windows_witness :
  exists Xv yv,
    import_data disk 3 "z.wav" 0 2 1 = Ok (Xv, yv) /\
    Forall (Forall (fun v => v = NaN)) (array_rows Xv).
Proof.
  apply (@silent_recording_gives_nan_windows disk 3 "z.wav" 0 2 1
           silent_clip 0).
  - reflexivity.
  - unfold silent, silent_clip. simpl. repeat (constructor; try reflexivity).
  - discriminate.
  - lia.
  - lia.
  - simpl. lia.
  - reflexivity.
Defined.

(** ** Gain *)

Lemma peak_scale (k x : Q) (l : list Q) :
  (0 < k)%Q -> (peak (k * x) (map (Qmult k) l) == k * peak x l)%Q.
Proof.
  intros Hk.
  assert (Habs : forall q, (Qabs (k * q) == k * Qabs q)%Q).
  { intros q. rewrite Qabs_Qmult, (Qabs_pos k); [reflexivity |].
    now apply Qlt_le_weak. }
  apply Qle_antisym.
  - destruct (peak_attained (k * x) (map (Qmult k) l)) as (q' & Hin & Heq).
    rewrite <- Heq.
    assert (Hq : exists q, In q (x :: l) /\ q' = (k * q)%Q).
    { destruct Hin as [<- | Hin].
      - exists x. split; [now left | reflexivity].
      - apply in_map_iff in Hin. destruct Hin as (q & <- & Hq).
        exists q. split; [now right | reflexivity]. }
    destruct Hq as (q & Hq & ->). rewrite Habs.
    apply Qmult_le_l; [exact Hk | now apply peak_bounds].
  - destruct (peak_attained x l) as (q & Hin & Heq).
    rewrite <- Heq, <- Habs. apply peak_bounds.
    destruct Hin as [<- | Hin]; [now left | right].
    now apply (in_map (Qmult k)).
Qed.

Lemma Forall2_map_pointwise {A B C} (R : B -> C -> Prop)
      (f : A -> B) (g : A -> C) (l : list A) :
  (forall a, In a l -> R (f a) (g a)) -> Forall2 R (map f l) (map g l).
Proof.
  induction l as [| a l IH]; intros H; simpl; constructor.
  - apply H. now left.
  - apply IH. intros a' Ha'. apply H. now right.
Qed.

Lemma scale_silent (k : Q) (clip : sound) : silent clip -> silent (scale k clip).
Proof.
  unfold silent, scale. simpl. intros H.
  apply Forall_map. eapply Forall_impl; [| exact H]. simpl. intros fr Hfr.
  apply Forall_map. eapply Forall_impl; [| exact Hfr]. simpl. intros q Hq.
  rewrite Hq. apply Qmult_0_r.
Qed.

(** X6.  Normalization removes the gain of a recording: a recording that
    holds at least one sample and the same recording with every sample
    multiplied by [k > 0] normalize to the same values, sample by sample. *)
Theorem normalize_gain_invariant (k : Q) (clip : sound) :
  (0 < k)%Q ->
  concat (frames clip) <> [] ->
  exists loud plain,
    normalize (samples (scale k clip)) = Ok loud /\
    normalize (samples clip) = Ok plain /\
    Forall2 (Forall2 feq) loud plain.
Proof.
  intros Hk Hne.
  destruct (normalize_nonempty clip Hne) as (x & l & Hxl & Hplain).
  assert (Hxl' : concat (frames (scale k clip))
                 = (k * x)%Q :: map (Qmult k) l).
  { unfold scale. simpl. rewrite <- concat_map, Hxl. reflexivity. }
  assert (Hne' : concat (frames (scale k clip)) <> []).
  { rewrite Hxl'. discriminate. }
  destruct (normalize_nonempty (scale k clip) Hne')
    as (x' & l' & Hxl'' & Hloud).
  rewrite Hxl' in Hxl''. injection Hxl'' as <- <-.
  pose proof (peak_scale x l Hk) as HM.
  set (M := peak (k * x) (map (Qmult k) l)) in *.
  set (P := peak x l) in *.
  eexists _, _. split; [exact Hloud |]. split; [exact Hplain |].
  destruct (Qeq_dec P 0) as [HP0 | HP0].
  - assert (Hs : silent clip).
    { apply silent_concat. rewrite Hxl. now apply peak_zero_iff. }
    assert (HM0 : (M == 0)%Q) by (rewrite HM, HP0; apply Qmult_0_r).
    rewrite (np_divide_silent HM0 (scale_silent k Hs)).
    rewrite (np_divide_silent HP0 Hs).
    unfold scale. simpl. rewrite map_map.
    apply Forall2_map_pointwise. intros fr _. rewrite map_map.
    apply Forall2_map_pointwise. intros q _. exact I.
  - assert (HMn : ~ (M == 0)%Q).
    { rewrite HM. intros E. apply Qmult_integral in E.
      destruct E as [E | E]; [| contradiction].
      rewrite E in Hk. now apply Qlt_irrefl in Hk. }
    rewrite (np_divide_samples (scale k clip) HMn).
    rewrite (np_divide_samples clip HP0).
    unfold scale. simpl. rewrite map_map.
    apply Forall2_map_pointwise. intros fr _. rewrite map_map.
    apply Forall2_map_pointwise. intros q _. simpl.
    rewrite HM. field. split; [exact HP0 |].
    intros E. rewrite E in Hk. now apply Qlt_irrefl in Hk.
Qed.

Lemma normalize_gain_invariant_witness :
  exists loud plain,
    normalize (samples (scale 3 stereo_clip)) = Ok loud /\
    normalize (samples stereo_clip) = Ok plain /\
    Forall2 (Forall2 feq) loud plain.
Proof.
  apply (@normalize_gain_invariant 3 stereo_clip).
  - reflexivity.
  - discriminate.
Defined.

(** ** Flattening any number of channels *)

Lemma nth_error_flat_map_blocks {A B} (f : A -> list B) (N : nat) (d : A)
      (js : list A) (k i : nat) :
  (forall j, In j js -> length (f j) = N) ->
  k < length js -> i < N ->
  nth_error (flat_map f js) (k * N + i) = nth_error (f (nth k js d)) i.
Proof.
  revert k. induction js as [| j js IH]; intros k Hlen Hk Hi; simpl in *.
  - lia.
  - destruct k as [| k]; simpl.
    + apply nth_error_app1. rewrite Hlen by now left. exact Hi.
    + rewrite nth_error_app2 by (rewrite Hlen by (now left); lia).
      rewrite Hlen by now left.
      replace (N + k * N + i - N) with (k * N + i) by lia.
      apply IH; [| lia | exact Hi]. intros j' Hj'. apply Hlen. now right.
Qed.

Lemma column_nth_error {A} (j i : nat) (data : list (list A)) :
  Forall (fun fr => j < length fr) data ->
  nth_error (column j data) i
  = match nth_error data i with
    | Some fr => nth_error fr j
    | None => None
    end.
Proof.
  intros H. revert i. unfold column.
  induction H as [| fr frs Hfr _ IH]; intros i; simpl.
  - now destruct i.
  - destruct (nth_error fr j) as [x |] eqn:E.
    + destruct i as [| i]; simpl; [now rewrite E | apply IH].
    + apply nth_error_None in E. lia.
Qed.

(** X7.  For an array of [N] frames with [c] samples each, the flattened
    sequence has length [c * N] and holds sample [i] of channel [j] at
    position [j * N + i]: the channels follow one another, each in the order
    of its samples. *)
Theorem flatten_F_position
        (A : Type) (c : nat) (data : list (list A)) (j i : nat) :
  Forall (fun fr => length fr = c) data ->
  j < c -> i < length data ->
  length (flatten_F c data) = c * length data /\
  nth_error (flatten_F c data) (j * length data + i)
  = nth_error (nth i data []) j.
Proof.
  intros Hwf Hj Hi. split; [now apply flatten_F_length |].
  unfold flatten_F.
  rewrite (@nth_error_flat_map_blocks _ _ (fun j => column j data)
             (length data) 0 (seq 0 c) j i).
  - rewrite seq_nth by exact Hj. simpl.
    rewrite column_nth_error.
    + now rewrite (nth_error_nth' data [] Hi).
    + eapply Forall_impl; [| exact Hwf]. simpl. intros; lia.
  - intros j' Hj'. apply in_seq in Hj'.
    apply (@column_length _ c); [lia | exact Hwf].
  - now rewrite length_seq.
  - exact Hi.
Qed.

Lemma flatten_F_position_witness :
  length (flatten_F 3 [[1; 2; 3]; [4; 5; 6]]) = 3 * length [[1; 2; 3]; [4; 5; 6]] /\
  nth_error (flatten_F 3 [[1; 2; 3]; [4; 5; 6]])
            (2 * length [[1; 2; 3]; [4; 5; 6]] + 1)
  = nth_error (nth 1 [[1; 2; 3]; [4; 5; 6]] []) 2.
Proof.
  apply (@flatten_F_position nat 3 [[1; 2; 3]; [4; 5; 6]] 2 1).
  - repeat constructor.
  - lia.
  - simpl. lia.
Defined.

(** ** The accumulation loop, file by file *)

Lemma last_cons {A} (a d : A) (l : list A) : last (a :: l) d = last l a.
Proof.
  revert a d. induction l as [| b l IH]; intros a d; [reflexivity |].
  change (last (a :: b :: l) d) with (last (b :: l) d).
  now rewrite !IH.
Qed.

Lemma np_append_Arr2_inv {A} (c : nat) (rx : list (list A))
      (b r : ndarray A) :
  np_append (Arr2 c rx) b = Ok r ->
  exists rb, b = Arr2 c rb /\ r = Arr2 c (rx ++ rb).
Proof.
  destruct b as [ib | cb rb]; simpl; [discriminate |].
  destruct (Nat.eqb_spec c cb); [| discriminate].
  subst cb. intros [= <-]. now exists rb.
Qed.

Section LoopSteps.

Variable sf_read : string -> option sound.
Variable n_classes : nat.
Variable segment_size segment_step : Z.
Variable fprefix : string.

Lemma loop_body_ok_inv (c : nat) (rx : list (list fval)) (ry : list (list Z))
      (item : string * Z) (st' : state) :
  loop_body sf_read n_classes segment_size segment_step fprefix
            (mkState (Arr2 c rx) (Arr2 n_classes ry)) item = (st', None) ->
  exists rt lt,
    import_data sf_read n_classes (fprefix ++ fst item)%string (snd item)
                segment_size segment_step
    = Ok (Arr2 c rt, Arr2 n_classes lt) /\
    st' = mkState (Arr2 c (rx ++ rt)) (Arr2 n_classes (ry ++ lt)).
Proof.
  unfold loop_body. destruct item as [fname nclass]. cbn [fst snd X y].
  destruct (import_data _ _ _ nclass _ _) as [[Xt yt] |]; [| discriminate].
  destruct (np_append (Arr2 c rx) Xt) as [X' |] eqn:HX; [| discriminate].
  destruct (np_append (Arr2 n_classes ry) yt) as [y' |] eqn:Hy;
    [| discriminate].
  apply np_append_Arr2_inv in HX, Hy.
  destruct HX as (rt & -> & ->). destruct Hy as (lt & -> & ->).
  intros E. injection E as <-. now exists rt, lt.
Qed.

Lemma loop_body_failure_keeps_state (st st' : state) (item : string * Z)
      (e : exn) :
  rows_aligned n_classes st ->
  loop_body sf_read n_classes segment_size segment_step fprefix st item
  = (st', Some e) ->
  st' = st.
Proof.
  intros (_ & rows & Hy & _). unfold loop_body.
  destruct item as [fname nclass].
  destruct (import_data _ _ _ nclass _ _) as [[Xt yt] |] eqn:Himp;
    [| now intros [= <- _]].
  destruct (np_append (X st) Xt) as [X' |]; [| now intros [= <- _]].
  destruct (@import_data_labels_rows _ _ _ _ _ _ _ _ Himp)
    as (rows_t & -> & _).
  rewrite Hy. simpl. rewrite Nat.eqb_refl. discriminate.
Qed.

Lemma loop_trace_aligned (items : list (string * Z)) (st : state)
      (trace : list state) (e : option exn) :
  rows_aligned n_classes st ->
  for_loop sf_read n_classes segment_size segment_step fprefix items st
  = (trace, e) ->
  rows_aligned n_classes (last trace st).
Proof.
  intros Hst Hloop.
  pose proof (@for_loop_aligned sf_read n_classes segment_size segment_step
                                fprefix items st Hst) as H.
  rewrite Hloop in H. simpl in H. apply Forall_last. now constructor.
Qed.

End LoopSteps.

(** X8.  When the loop has run through the files [done] without an
    exception and the next file fails with [e], the loop ends there with
    [e]: the failing file leaves [X] and [y] as the files before it made
    them, the files after it are not read, and the cell raises [e]. *)
Theorem loop_stops_at_first_failure
        (sf_read : string -> option sound) (n_classes : nat)
        (segment_size segment_step : Z) (fprefix : string)
        (done rest : list (string * Z)) (item : string * Z)
        (st0 : state) (trace : list state) (e : exn) :
  initial_state n_classes segment_size = Ok st0 ->
  for_loop sf_read n_classes segment_size segment_step fprefix done st0
  = (trace, None) ->
  snd (loop_body sf_read n_classes segment_size segment_step fprefix
                 (last trace st0) item) = Some e ->
  for_loop sf_read n_classes segment_size segment_step fprefix
           (done ++ item :: rest) st0
  = (trace ++ [last trace st0], Some e) /\
  preprocess sf_read n_classes segment_size segment_step fprefix
             (done ++ item :: rest) = Raise e.
Proof.
  intros Hinit Hdone Hfail.
  pose proof (@initial_state_aligned _ _ _ Hinit) as H0.
  assert (Hloop : for_loop sf_read n_classes segment_size segment_step fprefix
                           (done ++ item :: rest) st0
                  = (trace ++ [last trace st0], Some e)).
  { clear Hinit. revert st0 trace H0 Hdone Hfail.
    induction done as [| d done IH]; intros st0 trace H0 Hdone Hfail.
    - simpl in Hdone. injection Hdone as <-. simpl in *.
      destruct (loop_body _ _ _ _ _ st0 item) as [st' [e' |]] eqn:Hb;
        simpl in Hfail; [| discriminate].
      injection Hfail as ->.
      now rewrite (@loop_body_failure_keeps_state _ _ _ _ _ _ _ _ _ H0 Hb).
    - simpl in Hdone. simpl.
      pose proof (@loop_body_aligned sf_read n_classes segment_size
                                     segment_step fprefix st0 d H0) as H1.
      destruct (loop_body _ _ _ _ _ st0 d) as [st1 [e1 |]];
        [discriminate |]. simpl in H1.
      destruct (for_loop _ _ _ _ _ done st1) as [tr1 e1] eqn:Hrest.
      injection Hdone as <- ->.
      rewrite last_cons in Hfail |- *.
      rewrite (IH st1 tr1 H1 Hrest Hfail). reflexivity. }
  split; [exact Hloop |].
  unfold preprocess, dict_items. rewrite Hinit. simpl. now rewrite Hloop.
Qed.

Lemma loop_stops_at_first_failure_witness :
  for_loop disk 3 3 2 "" [("a.wav", 1); ("s.wav", 0); ("z.wav", 0)]%string%Z
           (mkState (Arr2 3 []) (Arr2 3 []))
  = ([mkState stereo_windows stereo_labels]
       ++ [last [mkState stereo_windows stereo_labels]
                (mkState (Arr2 3 []) (Arr2 3 []))],
     Some ValueError) /\
  preprocess disk 3 3 2 "" [("a.wav", 1); ("s.wav", 0); ("z.wav", 0)]%string%Z
  = Raise ValueError.
Proof.
  apply (@loop_stops_at_first_failure disk 3 3 2 ""
           [("a.wav", 1)]%string%Z [("z.wav", 0)]%string%Z
           ("s.wav", 0)%string%Z (mkState (Arr2 3 []) (Arr2 3 []))
           [mkState stereo_windows stereo_labels] ValueError).
  - reflexivity.
  - reflexivity.
  - reflexivity.
Defined.

(** X9.  When the loop runs through all the files without an exception,
    every file gave a two-dimensional feature array with the columns of
    the accumulator and a label array with [n_classes] columns, and the
    accumulated [X] and [y] are the rows they started with followed by the
    rows of the files, file after file in the order of the table. *)
Theorem accumulation_concatenates_in_order
        (sf_read : string -> option sound) (n_classes : nat)
        (segment_size segment_step : Z) (fprefix : string)
        (items : list (string * Z)) (c : nat)
        (rx : list (list fval)) (ry : list (list Z)) (trace : list state) :
  for_loop sf_read n_classes segment_size segment_step fprefix items
           (mkState (Arr2 c rx) (Arr2 n_classes ry)) = (trace, None) ->
  exists parts : list (list (list fval) * list (list Z)),
    Forall2 (fun item part =>
               import_data sf_read n_classes (fprefix ++ fst item)%string
                           (snd item) segment_size segment_step
               = Ok (Arr2 c (fst part), Arr2 n_classes (snd part)))
            items parts /\
    length trace = length items /\
    last trace (mkState (Arr2 c rx) (Arr2 n_classes ry))
    = mkState (Arr2 c (rx ++ concat (map fst parts)))
              (Arr2 n_classes (ry ++ concat (map snd parts))).
Proof.
  revert rx ry trace.
  induction items as [| item rest IH]; intros rx ry trace Hloop.
  - simpl in Hloop. injection Hloop as <-. exists [].
    simpl. rewrite !app_nil_r. repeat split. constructor.
  - simpl in Hloop.
    destruct (loop_body _ _ _ _ _ _ item) as [st' [e |]] eqn:Hb;
      [discriminate |].
    apply loop_body_ok_inv in Hb. destruct Hb as (rt & lt & Himp & ->).
    destruct (for_loop _ _ _ _ _ rest _) as [tr e] eqn:Hrest.
    injection Hloop as <- ->.
    destruct (IH _ _ _ Hrest) as (parts & Hparts & Hlen & Hlast).
    exists ((rt, lt) :: parts). split; [now constructor |].
    split; [simpl; now rewrite Hlen |].
    rewrite last_cons, Hlast. simpl. now rewrite <- !app_assoc.
Qed.

Lemma accumulation_concatenates_in_order_witness :
  exists parts : list (list (list fval) * list (list Z)),
    Forall2 (fun item part =>
               import_data disk 3 ("" ++ fst item)%string (snd item) 3 2
               = Ok (Arr2 3 (fst part), Arr2 3 (snd part)))
            [("a.wav", 1); ("z.wav", 0)]%string%Z parts /\
    length [mkState stereo_windows stereo_labels;
            mkState (Arr2 3 (array_rows stereo_windows ++ [[NaN; NaN; NaN]]))
                    (Arr2 3 (array_rows stereo_labels ++ [[1; 0; 0]]%Z))]
    = length [("a.wav", 1); ("z.wav", 0)]%string%Z /\
    last [mkState stereo_windows stereo_labels;
          mkState (Arr2 3 (array_rows stereo_windows ++ [[NaN; NaN; NaN]]))
                  (Arr2 3 (array_rows stereo_labels ++ [[1; 0; 0]]%Z))]
         (mkState (Arr2 3 []) (Arr2 3 []))
    = mkState (Arr2 3 ([] ++ concat (map fst parts)))
              (Arr2 3 ([] ++ concat (map snd parts))).
Proof.
  apply (@accumulation_concatenates_in_order disk 3 3 2 ""
           [("a.wav", 1); ("z.wav", 0)]%string%Z 3 [] []).
  reflexivity.
Defined.

(** ** A run without an exception *)

Lemma segments_uniform (data : list fval) (L S : Z)
      (windows : list (list fval)) :
  (0 < S)%Z -> (0 <= L)%Z ->
  segments data L S = Ok windows ->
  Forall (fun row => length row = Z.to_nat L) windows /\
  forall c, ((c - 1) * S < Z.of_nat (length data) - L <= c * S)%Z ->
            length windows = Z.to_nat c.
Proof.
  intros HS HL Hseg.
  destruct (@segments_spec data L S HS HL) as (c & Hc & Hseg' & Hfit).
  rewrite Hseg in Hseg'. injection Hseg' as ->. split.
  - apply Forall_map, Forall_forall. intros i Hi. apply in_seq in Hi.
    apply window_length; try assumption.
    specialize (Hfit i ltac:(lia)). lia.
  - intros c' Hc'. rewrite length_map, length_seq.
    f_equal. exact (@ceiling_unique _ S c c' HS Hc Hc').
Qed.

Lemma usable_import
      (sf_read : string -> option sound) (n_classes : nat)
      (fprefix : string) (L S : Z) (item : string * Z) :
  (0 < S)%Z -> (0 <= L)%Z ->
  usable sf_read n_classes fprefix L item ->
  exists rows labels,
    import_data sf_read n_classes (fprefix ++ fst item)%string (snd item) L S
    = Ok (Arr2 (Z.to_nat L) rows, Arr2 n_classes labels) /\
    1 <= length rows.
Proof.
  intros HS HL (clip & p & Hread & Hwf & HN & Hp).
  assert (Hne : concat (frames clip) <> []).
  { intros E. apply (f_equal (@length Q)) in E.
    rewrite (concat_length_uniform Hwf) in E. simpl in E. lia. }
  destruct (@import_data_returns sf_read n_classes _ (snd item) L S clip p
              Hread Hne ltac:(lia) Hp) as (Xv & Himp).
  pose proof Himp as Hinv. apply import_data_inv in Hinv.
  destruct Hinv as (clip' & data & windows & Hread' & Hnorm & Hseg & HX & _).
  rewrite Hread in Hread'. injection Hread' as <-.
  destruct (@segments_uniform _ L S windows HS HL Hseg) as (Hall & Hcount).
  destruct (@segments_spec (flatten_F (channels clip) data) L S HS HL)
    as (c & Hc & _).
  specialize (Hcount c Hc).
  rewrite (flattened_length Hwf Hnorm) in Hc.
  assert (Hpos : 1 <= length windows) by (rewrite Hcount; nia).
  assert (Hw : windows <> []).
  { intros E. rewrite E in Hpos. simpl in Hpos. lia. }
  rewrite (np_array_uniform Hw Hall) in HX. subst Xv.
  eexists windows, _. split; [exact Himp | exact Hpos].
Qed.

Lemma usable_loop
      (sf_read : string -> option sound) (n_classes : nat)
      (fprefix : string) (L S : Z) (items : list (string * Z))
      (rx : list (list fval)) (ry : list (list Z)) :
  (0 < S)%Z -> (0 <= L)%Z ->
  Forall (usable sf_read n_classes fprefix L) items ->
  exists trace rx' ry',
    for_loop sf_read n_classes L S fprefix items
             (mkState (Arr2 (Z.to_nat L) rx) (Arr2 n_classes ry))
    = (trace, None) /\
    last trace (mkState (Arr2 (Z.to_nat L) rx) (Arr2 n_classes ry))
    = mkState (Arr2 (Z.to_nat L) rx') (Arr2 n_classes ry') /\
    length rx + length items <= length rx'.
Proof.
  intros HS HL Hall. revert rx ry.
  induction Hall as [| item rest Hitem _ IH]; intros rx ry.
  - exists [], rx, ry. simpl. repeat split. lia.
  - destruct (@usable_import sf_read n_classes fprefix L S item HS HL Hitem)
      as (rows & labels & Himp & Hrows).
    destruct (IH (rx ++ rows) (ry ++ labels))
      as (trace & rx' & ry' & Hloop & Hlast & Hlen).
    exists (mkState (Arr2 (Z.to_nat L) (rx ++ rows))
                    (Arr2 n_classes (ry ++ labels)) :: trace), rx', ry'.
    assert (Hb : loop_body sf_read n_classes L S fprefix
                           (mkState (Arr2 (Z.to_nat L) rx) (Arr2 n_classes ry))
                           item
                 = (mkState (Arr2 (Z.to_nat L) (rx ++ rows))
                            (Arr2 n_classes (ry ++ labels)), None)).
    { unfold loop_body. destruct item as [fname nclass].
      cbn [fst snd] in Himp. rewrite Himp. cbn [X y np_append].
      now rewrite !Nat.eqb_refl. }
    split; [cbn [for_loop]; now rewrite Hb, Hloop |].
    rewrite last_cons. split; [exact Hlast |].
    rewrite length_app in Hlen. cbn [length]. lia.
Qed.

(** X10.  With a positive stride and a segment length [L >= 1], both below
    [2 ^ 53], when every file of the table can be read, is a well-formed
    array with more than [L] and fewer than [2 ^ 53] samples (the range in
    which the binary64 quotient gives the exact ceiling) and has a class
    index within bounds, the cell raises nothing:
    it returns a feature matrix with [L / 2 + 1] columns and a label matrix
    with [n_classes] columns that have the same number of rows, at least
    one row per file. *)
Theorem preprocess_returns
        (sf_read : string -> option sound) (n_classes : nat)
        (L S : Z) (fprefix : string) (flist : dict) :
  (0 < S < 2 ^ 53)%Z -> (1 <= L < 2 ^ 53)%Z ->
  Forall (usable sf_read n_classes fprefix L) (dict_items flist) ->
  exists feats labels,
    preprocess sf_read n_classes L S fprefix flist
    = Ok (Arr2 (Z.to_nat L / 2 + 1) feats, Arr2 n_classes labels) /\
    length feats = length labels /\
    length (dict_items flist) <= length feats.
Proof.
  intros [HS _] [HL _] Hall.
  destruct (@usable_loop sf_read n_classes fprefix L S (dict_items flist)
              [] [] HS ltac:(lia) Hall)
    as (trace & rx' & ry' & Hloop & Hlast & Hlen).
  assert (Hinit : initial_state n_classes L
                  = Ok (mkState (Arr2 (Z.to_nat L) []) (Arr2 n_classes []))).
  { unfold initial_state, np_empty0.
    destruct (Z.ltb_spec L 0); [lia |]. simpl.
    destruct (Z.ltb_spec (Z.of_nat n_classes) 0); [lia |]. simpl.
    now rewrite Nat2Z.id. }
  pose proof (@loop_trace_aligned sf_read n_classes L S fprefix _ _ _ _
                (@initial_state_aligned _ _ _ Hinit) Hloop) as Hal.
  rewrite Hlast in Hal. destruct Hal as (Hrows & _). simpl in Hrows.
  unfold shape0 in Hrows. simpl in Hrows.
  exists (map (rfft_abs (Z.to_nat L)) rx'), ry'.
  unfold preprocess. rewrite Hinit. simpl. rewrite Hloop, Hlast. simpl.
  destruct (Nat.eqb_spec (Z.to_nat L) 0); [lia |]. simpl.
  split; [reflexivity |]. rewrite length_map.
  split; [exact Hrows |]. simpl in Hlen. exact Hlen.
Qed.

Lemma preprocess_returns_witness :
  exists feats labels,
    preprocess disk 3 3 2 "" [("a.wav", 1); ("z.wav", 0)]%string%Z
    = Ok (Arr2 (Z.to_nat 3 / 2 + 1) feats, Arr2 3 labels) /\
    length feats = length labels /\
    length (dict_items [("a.wav", 1); ("z.wav", 0)]%string%Z) <= length feats.
Proof.
  apply (@preprocess_returns disk 3 3 2 ""
           [("a.wav", 1); ("z.wav", 0)]%string%Z).
  - lia.
  - lia.
  - constructor; [| constructor; [| constructor]].
    + exists stereo_clip, 1. repeat split; try reflexivity.
      repeat constructor.
    + exists silent_clip, 0. repeat split; try reflexivity.
      repeat constructor.
Defined.

(** ** Decoding the labels *)

Lemma argmax_from_below (l : list Z) (i best : nat) (top : Z) :
  Forall (fun x => (x <= top)%Z) l -> argmax_from l i best top = best.
Proof.
  intros H. revert i. induction H as [| x l Hx _ IH]; intros i; simpl.
  - reflexivity.
  - destruct (Z.ltb_spec top x); [lia | apply IH].
Qed.

Lemma argmax_from_one_hot (n p i best : nat) :
  p < n ->
  argmax_from (list_set (repeat 0%Z n) p 1%Z) i best 0%Z = i + p.
Proof.
  revert p i best. induction n as [| n IH]; intros p i best Hp; [lia |].
  destruct p as [| p]; simpl.
  - rewrite argmax_from_below; [lia |].
    apply Forall_forall. intros x Hx. apply repeat_spec in Hx. lia.
  - rewrite IH by lia. lia.
Qed.

Lemma argmax_one_hot_row (n p : nat) : p < n -> argmax_row (one_hot_row n p) = p.
Proof.
  intros Hp. unfold one_hot_row. destruct n as [| n]; [lia |].
  destruct p as [| p]; simpl.
  - apply argmax_from_below.
    apply Forall_forall. intros x Hx. apply repeat_spec in Hx. lia.
  - rewrite argmax_from_one_hot by lia. reflexivity.
Qed.

(** X11.  Decoding undoes the one-hot encoding: [np.argmax] along axis 1 of
    the label array that [import_data] returns for class index [nclass]
    gives, for every window, the position that [nclass] designates
    ([nclass] itself when it is not negative). *)
Theorem argmax_decodes_labels
        (sf_read : string -> option sound) (n_classes : nat)
        (fname : string) (nclass L S : Z) (Xv : ndarray fval) (yv : ndarray Z) :
  import_data sf_read n_classes fname nclass L S = Ok (Xv, yv) ->
  exists p,
    py_index n_classes nclass = Some p /\
    ((0 <= nclass)%Z -> p = Z.to_nat nclass) /\
    np_argmax1 yv = Ok (repeat p (shape0 Xv)).
Proof.
  intros Himp. apply import_data_inv in Himp.
  destruct Himp as (clip & data & windows & _ & _ & _ & -> & Hy).
  apply one_hot_inv in Hy. destruct Hy as (p & Hp & ->).
  destruct (py_index_bound _ _ Hp) as (Hlt & Hnonneg & _).
  exists p. split; [exact Hp |]. split; [exact Hnonneg |].
  unfold np_argmax1. destruct (Nat.eqb_spec n_classes 0); [lia |].
  rewrite shape0_np_array. f_equal.
  induction (length windows) as [| k IH]; simpl; [reflexivity |].
  now rewrite IH, argmax_one_hot_row.
Qed.

Lemma argmax_decodes_labels_witness :
  exists p,
    py_index 3 1 = Some p /\
    ((0 <= 1)%Z -> p = Z.to_nat 1) /\
    np_argmax1 stereo_labels = Ok (repeat p (shape0 stereo_windows)).
Proof.
  apply (@argmax_decodes_labels disk 3 "a.wav" 1 3 2
           stereo_windows stereo_labels).
  reflexivity.
Defined.

(** ** The split *)

Lemma take_inv {A} (rows : list A) (idx : list nat) (rs : list A) :
  take rows idx = Ok rs ->
  Forall2 (fun i r => nth_error rows i = Some r) idx rs.
Proof.
  revert rs. induction idx as [| i idx IH]; intros rs; simpl.
  - intros [= <-]. constructor.
  - destruct (nth_error rows i) as [r |] eqn:E; [| discriminate].
    destruct (take rows idx) as [rs' |]; [| discriminate].
    simpl. intros [= <-]. constructor; auto.
Qed.

Lemma take_within {A} (rows : list A) (idx : list nat) :
  Forall (fun i => i < length rows) idx ->
  exists rs, take rows idx = Ok rs /\ length rs = length idx.
Proof.
  induction 1 as [| i idx Hi _ (rs & IH & Hlen)]; simpl.
  - now exists [].
  - destruct (nth_error rows i) as [r |] eqn:E.
    + rewrite IH. simpl. exists (r :: rs). simpl. now rewrite Hlen.
    + apply nth_error_None in E. lia.
Qed.

Lemma take_rows_within {A} (a : ndarray A) (idx : list nat) :
  Forall (fun i => i < shape0 a) idx ->
  exists r, take_rows a idx = Ok r /\ shape0 r = length idx /\
            Forall2 (fun i row => nth_error (array_rows a) i = Some row)
                    idx (array_rows r).
Proof.
  intros H. destruct a as [items | c rows]; unfold shape0 in *; simpl in *;
    destruct (take_within _ H) as (rs & Ht & Hlen); rewrite Ht; simpl;
    eexists; (split; [reflexivity |]); (split; [exact Hlen |]);
    now apply take_inv.
Qed.

Lemma take_rows_inv {A} (a r : ndarray A) (idx : list nat) :
  take_rows a idx = Ok r ->
  Forall2 (fun i row => nth_error (array_rows a) i = Some row)
          idx (array_rows r).
Proof.
  destruct a as [items | c rows]; simpl.
  - destruct (take items idx) as [rs |] eqn:E; [| discriminate].
    simpl. intros [= <-]. now apply take_inv.
  - destruct (take rows idx) as [rs |] eqn:E; [| discriminate].
    simpl. intros [= <-]. now apply take_inv.
Qed.

Lemma Forall2_positions {A} (pre rows rs : list A) :
  Forall2 (fun i r => nth_error (pre ++ rows) i = Some r)
          (seq (length pre) (length rows)) rs ->
  rs = rows.
Proof.
  revert pre rs. induction rows as [| x rows IH]; intros pre rs H; simpl in H.
  - now inversion H.
  - inversion H as [| ? r ? rs' Hx Hrest]; subst.
    rewrite nth_error_app2, Nat.sub_diag in Hx by lia. simpl in Hx.
    injection Hx as <-. f_equal. apply (IH (pre ++ [x])).
    rewrite <- app_assoc, length_app. simpl.
    now rewrite Nat.add_1_r.
Qed.

Lemma split_positions (n : nat) (perm : list nat) :
  Permutation perm (seq 0 n) -> 2 <= n ->
  firstn (n_test_of n) perm
    ++ firstn (n - n_test_of n) (skipn (n_test_of n) perm) = perm /\
  1 <= n - n_test_of n /\ n_test_of n <= n /\
  Forall (fun i => i < n) perm.
Proof.
  intros Hperm Hn.
  assert (Hlen : length perm = n).
  { rewrite (Permutation_length Hperm). apply length_seq. }
  assert (Hq : n_test_of n <= n /\ 1 <= n - n_test_of n).
  { unfold n_test_of.
    pose proof (Nat.div_mod_eq (n + 3) 4) as Hd.
    pose proof (Nat.mod_upper_bound (n + 3) 4 ltac:(lia)). lia. }
  repeat split; try lia.
  - rewrite (firstn_all2 (n := n - n_test_of n))
      by (rewrite length_skipn; lia).
    apply firstn_skipn.
  - apply Forall_forall. intros i Hi.
    apply (Permutation_in _ Hperm), in_seq in Hi. lia.
Qed.

(** X12.  When the two arrays have the same number [n >= 2] of rows and the
    shuffle is a permutation of the row positions, the split returns: the
    test parts have [ceil(n / 4)] rows, the training parts have the rest,
    and no row is left out of the count. *)
Theorem train_test_split_sizes
        (A B : Type) (perm : list nat) (Xa : ndarray A) (ya : ndarray B) :
  shape0 ya = shape0 Xa ->
  2 <= shape0 Xa ->
  Permutation perm (seq 0 (shape0 Xa)) ->
  exists X_train X_test y_train y_test,
    train_test_split perm Xa ya = Ok (X_train, X_test, y_train, y_test) /\
    shape0 X_test = n_test_of (shape0 Xa) /\
    shape0 y_test = shape0 X_test /\
    shape0 y_train = shape0 X_train /\
    shape0 X_train + shape0 X_test = shape0 Xa /\
    4 * (shape0 X_test - 1) < shape0 Xa <= 4 * shape0 X_test.
Proof.
  intros Hy Hn Hperm.
  destruct (split_positions Hperm Hn) as (Hcut & Htrain & Htest & Hin).
  set (n := shape0 Xa) in *.
  assert (Hlen : length perm = n).
  { rewrite (Permutation_length Hperm). apply length_seq. }
  assert (Hin_test : Forall (fun i => i < n) (firstn (n_test_of n) perm)).
  { apply Forall_forall. intros i Hi. rewrite Forall_forall in Hin.
    apply Hin. rewrite <- (firstn_skipn (n_test_of n) perm).
    apply in_or_app. now left. }
  assert (Hin_train : Forall (fun i => i < n)
                             (firstn (n - n_test_of n)
                                     (skipn (n_test_of n) perm))).
  { apply Forall_forall. intros i Hi. rewrite Forall_forall in Hin.
    apply Hin. rewrite <- Hcut. apply in_or_app. now right. }
  destruct (take_rows_within Xa Hin_train) as (Xtr & HXtr & LXtr & _).
  destruct (take_rows_within Xa Hin_test) as (Xte & HXte & LXte & _).
  assert (Hin_test' : Forall (fun i => i < shape0 ya)
                             (firstn (n_test_of n) perm))
    by now rewrite Hy.
  assert (Hin_train' : Forall (fun i => i < shape0 ya)
                              (firstn (n - n_test_of n)
                                      (skipn (n_test_of n) perm)))
    by now rewrite Hy.
  destruct (take_rows_within ya Hin_train') as (ytr & Hytr & Lytr & _).
  destruct (take_rows_within ya Hin_test') as (yte & Hyte & Lyte & _).
  exists Xtr, Xte, ytr, yte. unfold train_test_split. fold n.
  rewrite Hy, Nat.eqb_refl. simpl.
  destruct (Nat.eqb_spec (n - n_test_of n) 0); [lia |].
  rewrite HXtr, HXte, Hytr, Hyte. simpl.
  rewrite length_firstn, length_skipn in LXtr, Lytr.
  rewrite length_firstn in LXte, Lyte.
  split; [reflexivity |].
  assert (Hceil : 4 * (n_test_of n - 1) < n <= 4 * n_test_of n).
  { unfold n_test_of.
    pose proof (Nat.div_mod_eq (n + 3) 4) as Hd.
    pose proof (Nat.mod_upper_bound (n + 3) 4 ltac:(lia)). lia. }
  repeat split; try lia.
Qed.

Lemma train_test_split_sizes_witness :
  exists X_train X_test y_train y_test,
    train_test_split [2; 0; 1] stereo_windows stereo_labels
    = Ok (X_train, X_test, y_train, y_test) /\
    shape0 X_test = n_test_of (shape0 stereo_windows) /\
    shape0 y_test = shape0 X_test /\
    shape0 y_train = shape0 X_train /\
    shape0 X_train + shape0 X_test = shape0 stereo_windows /\
    4 * (shape0 X_test - 1) < shape0 stereo_windows <= 4 * shape0 X_test.
Proof.
  apply (@train_test_split_sizes _ _ [2; 0; 1] stereo_windows stereo_labels).
  - reflexivity.
  - unfold shape0. simpl. lia.
  - unfold shape0. simpl.
    apply (perm_trans (l' := [0; 2; 1])); [apply perm_swap |].
    apply perm_skip, perm_swap.
Defined.

(** X13.  Whenever the split returns, feature rows and label rows stay
    paired: row [k] of each training (test) part is row [i] of the array it
    was taken from, for the same [i] in [X] and in [y].  When the shuffle is
    a permutation of the row positions, the training and test rows together
    are the rows of the array, each row once. *)
Theorem train_test_split_keeps_pairs
        (A B : Type) (perm : list nat) (Xa : ndarray A) (ya : ndarray B)
        (X_train X_test : ndarray A) (y_train y_test : ndarray B) :
  train_test_split perm Xa ya = Ok (X_train, X_test, y_train, y_test) ->
  (exists ind_train ind_test,
      Forall2 (fun i row => nth_error (array_rows Xa) i = Some row)
              ind_train (array_rows X_train) /\
      Forall2 (fun i row => nth_error (array_rows ya) i = Some row)
              ind_train (array_rows y_train) /\
      Forall2 (fun i row => nth_error (array_rows Xa) i = Some row)
              ind_test (array_rows X_test) /\
      Forall2 (fun i row => nth_error (array_rows ya) i = Some row)
              ind_test (array_rows y_test)) /\
  (Permutation perm (seq 0 (shape0 Xa)) ->
   Permutation (array_rows X_test ++ array_rows X_train) (array_rows Xa) /\
   Permutation (array_rows y_test ++ array_rows y_train) (array_rows ya)).
Proof.
  unfold train_test_split. set (n := shape0 Xa).
  destruct (Nat.eqb_spec (shape0 ya) n) as [Hy |]; [| discriminate]. simpl.
  destruct (Nat.eqb_spec (n - n_test_of n) 0) as [| Htr]; [discriminate |].
  set (ind_test := firstn (n_test_of n) perm).
  set (ind_train := firstn (n - n_test_of n) (skipn (n_test_of n) perm)).
  destruct (take_rows Xa ind_train) as [Xtr |] eqn:HXtr; [| discriminate].
  destruct (take_rows Xa ind_test) as [Xte |] eqn:HXte; [| discriminate].
  destruct (take_rows ya ind_train) as [ytr |] eqn:Hytr; [| discriminate].
  destruct (take_rows ya ind_test) as [yte |] eqn:Hyte; [| discriminate].
  simpl. intros [= <- <- <- <-].
  apply take_rows_inv in HXtr, HXte, Hytr, Hyte.
  split; [exists ind_train, ind_test; auto |].
  intros Hperm.
  assert (Hn : 2 <= n).
  { unfold n_test_of in Htr.
    pose proof (Nat.div_mod_eq (n + 3) 4) as Hd.
    pose proof (Nat.mod_upper_bound (n + 3) 4 ltac:(lia)). lia. }
  destruct (split_positions Hperm Hn) as (Hcut & _).
  fold ind_test ind_train in Hcut.
  assert (Hrows : forall (C : Type) (rows te tr : list C),
             length rows = n ->
             Forall2 (fun i row => nth_error rows i = Some row) ind_test te ->
             Forall2 (fun i row => nth_error rows i = Some row) ind_train tr ->
             Permutation (te ++ tr) rows).
  { intros C rows te tr Hlen Hte Htr'.
    pose proof (Forall2_app Hte Htr') as Hall. rewrite Hcut in Hall.
    destruct (Permutation_Forall2 Hperm Hall) as (rs & Hp & Hrs).
    rewrite <- Hlen in Hrs.
    apply (@Forall2_positions _ [] rows rs) in Hrs. now subst rs. }
  split.
  - now apply Hrows.
  - apply Hrows; auto.
Qed.

Lemma train_test_split_keeps_pairs_witness :
  exists X_train X_test y_train y_test,
    train_test_split [2; 0; 1] stereo_windows stereo_labels
    = Ok (X_train, X_test, y_train, y_test) /\
    (exists ind_train ind_test,
        Forall2 (fun i row => nth_error (array_rows stereo_windows) i = Some row)
                ind_train (array_rows X_train) /\
        Forall2 (fun i row => nth_error (array_rows stereo_labels) i = Some row)
                ind_train (array_rows y_train) /\
        Forall2 (fun i row => nth_error (array_rows stereo_windows) i = Some row)
                ind_test (array_rows X_test) /\
        Forall2 (fun i row => nth_error (array_rows stereo_labels) i = Some row)
                ind_test (array_rows y_test)) /\
    (Permutation [2; 0; 1] (seq 0 (shape0 stereo_windows)) ->
     Permutation (array_rows X_test ++ array_rows X_train)
                 (array_rows stereo_windows) /\
     Permutation (array_rows y_test ++ array_rows y_train)
                 (array_rows stereo_labels)).
Proof.
  destruct (train_test_split [2; 0; 1] stereo_windows stereo_labels)
    as [[[[Xtr Xte] ytr] yte] |] eqn:E; [| discriminate].
  exists Xtr, Xte, ytr, yte. split; [reflexivity |].
  apply (@train_test_split_keeps_pairs _ _ [2; 0; 1]
           stereo_windows stereo_labels Xtr Xte ytr yte E).
Defined.

(** ** The order of the table *)

Lemma dict_setitem_key_list (d : dict) (k : string) (v : Z) :
  map fst (dict_setitem d k v)
  = if existsb (String.eqb k) (map fst d) then map fst d
    else map fst d ++ [k].
Proof.
  induction d as [| [k0 v0] rest IH]; simpl; [reflexivity |].
  rewrite (String.eqb_sym k k0).
  destruct (String.eqb k0 k); simpl; [reflexivity |].
  rewrite IH. now destruct (existsb (String.eqb k) (map fst rest)).
Qed.

Lemma dict_fold_key_list (pairs : list (string * Z)) (d : dict) :
  map fst (fold_left (fun d kv => dict_setitem d (fst kv) (snd kv)) pairs d)
  = map fst d ++ first_occurrences (map fst d) (map fst pairs).
Proof.
  revert d. induction pairs as [| [k v] rest IH]; intros d; simpl.
  - now rewrite app_nil_r.
  - rewrite IH, dict_setitem_key_list.
    destruct (existsb (String.eqb k) (map fst d)); [reflexivity |].
    now rewrite <- app_assoc.
Qed.

(** X14.  The table holds its file names in the order in which they first
    occur in the dict display, so this is the order in which the loop reads
    the files; a name that occurs again keeps its place. *)
Theorem flist_order_is_first_occurrence (pairs : list (string * Z)) :
  map fst (dict_items (dict_literal pairs))
  = first_occurrences [] (map fst pairs).
Proof.
  unfold dict_items, dict_literal. now rewrite dict_fold_key_list.
Qed.

(** The table of the notebook, in the order of the loop. *)
Example flist_order :
  map fst (dict_items Notebook.flist)
  = [ "plastic_spheres_1.wav"; "plastic_spheres_2.wav";
      "plastic_spheres_3.wav"; "plastic_spheres_4.wav";
      "steel_nut_M3_1.wav"; "steel_nut_M3_2.wav";
      "steel_nut_M3_3.wav"; "steel_nut_M3_4.wav";
      "steel_nut_M4_1.wav"; "steel_nut_M4_2.wav";
      "steel_nut_M4_3.wav"; "steel_nut_M4_4.wav";
      "messing_nut_M4_1.wav";
      "screws_1.wav"; "screws_2.wav"; "screws_3.wav"; "screws_4.wav" ]%string.
Proof. reflexivity. Qed.

(** ** The labels of the assembled data set *)

Section AssembledLabels.

Variable sf_read : string -> option sound.
Variable n_classes : nat.
Variable segment_size segment_step : Z.
Variable fprefix : string.
Variable table : list (string * Z).

Lemma loop_body_labels (st : state) (item : string * Z) :
  In item table ->
  rows_aligned n_classes st ->
  Forall (label_of_table n_classes table) (array_rows (y st)) ->
  Forall (label_of_table n_classes table)
         (array_rows (y (fst (loop_body sf_read n_classes segment_size
                                        segment_step fprefix st item)))).
Proof.
  intros Hin (_ & rows & Hy & _) Hst. unfold loop_body.
  destruct item as [fname nclass].
  destruct (import_data _ _ _ nclass _ _) as [[Xt yt] |] eqn:Himp;
    [| exact Hst].
  destruct (np_append (X st) Xt) as [X' |]; [| exact Hst].
  apply import_data_inv in Himp.
  destruct Himp as (clip & data & windows & _ & _ & _ & _ & Hone).
  apply one_hot_inv in Hone. destruct Hone as (p & Hp & ->).
  destruct (py_index_bound _ _ Hp) as (Hlt & _).
  rewrite Hy in *. simpl. rewrite Nat.eqb_refl. simpl.
  apply Forall_app. split; [exact Hst |].
  apply Forall_forall. intros row Hrow. apply repeat_spec in Hrow. subst row.
  exists (fname, nclass), p. repeat split; auto.
  now apply argmax_one_hot_row.
Qed.

Lemma for_loop_labels (items : list (string * Z)) (st : state) :
  incl items table ->
  rows_aligned n_classes st ->
  Forall (label_of_table n_classes table) (array_rows (y st)) ->
  Forall (fun st' => Forall (label_of_table n_classes table) (array_rows (y st')))
         (fst (for_loop sf_read n_classes segment_size segment_step fprefix
                        items st)).
Proof.
  revert st. induction items as [| item rest IH]; intros st Hincl Hal Hst;
    simpl; [constructor |].
  assert (Hin : In item table) by (apply Hincl; now left).
  pose proof (@loop_body_labels st item Hin Hal Hst) as Hstep.
  pose proof (@loop_body_aligned sf_read n_classes segment_size segment_step
                                 fprefix st item Hal) as Hal'.
  destruct (loop_body _ _ _ _ _ st item) as [st' [e |]]; simpl in *.
  - constructor; [exact Hstep | constructor].
  - assert (Hincl' : incl rest table).
    { intros x Hx. apply Hincl. now right. }
    specialize (IH st' Hincl' Hal' Hstep).
    destruct (for_loop _ _ _ _ _ rest st') as [trace e]. simpl in *.
    now constructor.
Qed.

End AssembledLabels.

(** X15.  Every row of the label matrix that the loop accumulates, at the
    end of every iteration and in what the cell returns, is the one-hot row
    of the class of some entry of the table: it holds a single 1, at the
    position the class index designates, and [np.argmax] of the row gives
    that position back. *)
Theorem assembled_labels_one_hot
        (sf_read : string -> option sound) (n_classes : nat)
        (segment_size segment_step : Z) (fprefix : string)
        (flist : dict) (st0 : state) :
  initial_state n_classes segment_size = Ok st0 ->
  Forall (fun st =>
            Forall (label_of_table n_classes (dict_items flist))
                   (array_rows (y st)))
         (fst (for_loop sf_read n_classes segment_size segment_step fprefix
                        (dict_items flist) st0)) /\
  forall Xf yf,
    preprocess sf_read n_classes segment_size segment_step fprefix flist
    = Ok (Xf, yf) ->
    Forall (label_of_table n_classes (dict_items flist)) (array_rows yf).
Proof.
  intros Hinit.
  pose proof (@initial_state_aligned _ _ _ Hinit) as H0.
  assert (Hy0 : Forall (label_of_table n_classes (dict_items flist))
                       (array_rows (y st0))).
  { unfold initial_state, np_empty0 in Hinit.
    destruct (segment_size <? 0)%Z; [discriminate |]. simpl in Hinit.
    destruct (Z.of_nat n_classes <? 0)%Z; [discriminate |]. simpl in Hinit.
    injection Hinit as <-. constructor. }
  pose proof (@for_loop_labels sf_read n_classes segment_size segment_step
                fprefix (dict_items flist) (dict_items flist) st0
                (incl_refl _) H0 Hy0) as Htrace.
  split; [exact Htrace |].
  intros Xf yf. unfold preprocess. rewrite Hinit. simpl.
  destruct (for_loop _ _ _ _ _ (dict_items flist) st0) as [trace e].
  destruct e as [e |]; [discriminate |]. simpl in Htrace.
  destruct (magnitude_spectrum (X (last trace st0))) as [Xm |];
    [| discriminate].
  simpl. intros [= <- <-].
  apply (@Forall_last _ (fun st => Forall (label_of_table n_classes
                                             (dict_items flist))
                                          (array_rows (y st)))).
  now constructor.
Qed.

Lemma assembled_labels_one_hot_witness :
  Forall (fun st =>
            Forall (label_of_table 3 (dict_items [("a.wav", 1); ("z.wav", 0)]%string%Z))
                   (array_rows (y st)))
         (fst (for_loop disk 3 3 2 ""
                        (dict_items [("a.wav", 1); ("z.wav", 0)]%string%Z)
                        (mkState (Arr2 3 []) (Arr2 3 [])))) /\
  forall Xf yf,
    preprocess disk 3 3 2 "" [("a.wav", 1); ("z.wav", 0)]%string%Z
    = Ok (Xf, yf) ->
    Forall (label_of_table 3 (dict_items [("a.wav", 1); ("z.wav", 0)]%string%Z))
           (array_rows yf).
Proof.
  apply (@assembled_labels_one_hot disk 3 3 2 ""
           [("a.wav", 1); ("z.wav", 0)]%string%Z
           (mkState (Arr2 3 []) (Arr2 3 []))).
  reflexivity.
Defined.

(** ** Which sample a window entry is *)

Lemma flatten_F_nth_error {A} (c : nat) (data : list (list A)) (j r : nat) :
  Forall (fun fr => length fr = c) data ->
  j < c -> r < length data ->
  nth_error (flatten_F c data) (j * length data + r)
  = nth_error (nth r data []) j.
Proof.
  intros Hwf Hj Hr. unfold flatten_F.
  rewrite (@nth_error_flat_map_blocks _ _ (fun j => column j data)
             (length data) 0 (seq 0 c) j r).
  - rewrite seq_nth by exact Hj. simpl.
    rewrite column_nth_error.
    + now rewrite (nth_error_nth' data [] Hr).
    + eapply Forall_impl; [| exact Hwf]. simpl. intros; lia.
  - intros j' Hj'. apply in_seq in Hj'.
    apply (@column_length _ c); [lia | exact Hwf].
  - now rewrite length_seq.
  - exact Hr.
Qed.

(** X16.  Entry [t] of the window at offset [i * S] is the normalized sample
    at position [i * S + t] of the flattened recording: with [N] frames,
    the sample of frame [(i * S + t) mod N] in channel [(i * S + t) / N].
    A window that starts near the end of one channel therefore continues
    with the first samples of the next channel. *)
Theorem window_entry_is_sample
        (sf_read : string -> option sound) (n_classes : nat)
        (fname : string) (nclass L S : Z) (clip : sound)
        (data : list (list fval)) (Xv : ndarray fval) (yv : ndarray Z)
        (i t : nat) (w : list fval) :
  sf_read fname = Some clip ->
  well_formed clip ->
  normalize (samples clip) = Ok data ->
  (0 < S)%Z -> (0 <= L)%Z ->
  import_data sf_read n_classes fname nclass L S = Ok (Xv, yv) ->
  nth_error (array_rows Xv) i = Some w ->
  t < Z.to_nat L ->
  nth_error w t
  = nth_error (nth ((i * Z.to_nat S + t) mod length (frames clip)) data [])
              ((i * Z.to_nat S + t) / length (frames clip)) /\
  (i * Z.to_nat S + t) / length (frames clip) < channels clip.
Proof.
  intros Hread Hwf Hnorm HS HL Himp Hw Ht.
  apply import_data_inv in Himp.
  destruct Himp as (clip' & data' & windows & Hread' & Hnorm' & Hseg & -> & _).
  rewrite Hread in Hread'. injection Hread' as <-.
  rewrite Hnorm in Hnorm'. injection Hnorm' as <-.
  destruct (@segments_spec (flatten_F (channels clip) data) L S HS HL)
    as (c & _ & Hseg' & Hfit).
  rewrite Hseg in Hseg'. injection Hseg' as ->.
  rewrite array_rows_np_array, nth_error_map, nth_error_seq in Hw.
  destruct (Nat.ltb_spec i (Z.to_nat c)) as [Hi |]; [| discriminate].
  simpl in Hw. injection Hw as <-.
  specialize (Hfit i Hi). rewrite (flattened_length Hwf Hnorm) in Hfit.
  pose proof Hnorm as Hshape. apply normalize_inv in Hshape.
  destruct Hshape as (m & Hdata).
  destruct (samples_shape Hwf) as (Hsh & Hlen).
  destruct (np_divide_shape m Hsh) as (Hsh' & Hlen').
  rewrite <- Hdata in Hsh', Hlen'.
  set (N := length (frames clip)) in *.
  set (pos := i * Z.to_nat S + t).
  assert (Hpos : pos < channels clip * N) by (unfold pos; nia).
  assert (HN : 0 < N) by nia.
  assert (Hj : pos / N < channels clip).
  { apply Nat.Div0.div_lt_upper_bound. lia. }
  assert (Hr : pos mod N < N) by (apply Nat.mod_upper_bound; lia).
  split; [| exact Hj].
  unfold window. rewrite nth_error_firstn.
  destruct (Nat.ltb_spec t (Z.to_nat L)); [| lia].
  rewrite nth_error_skipn. fold pos.
  assert (Hdata_len : length data = N) by (rewrite Hlen'; exact Hlen).
  assert (Hr' : pos mod N < length data) by (rewrite Hdata_len; exact Hr).
  rewrite <- (@flatten_F_nth_error _ (channels clip) data (pos / N)
                (pos mod N) Hsh' Hj Hr'), Hdata_len.
  f_equal. pose proof (Nat.div_mod_eq pos N). lia.
Qed.

Lemma window_entry_is_sample_witness :
  nth_error [Fin (1 # 3); Fin (0 # 1); Fin (1 # 4)]%Q 2
  = nth_error (nth ((1 * Z.to_nat 2 + 2) mod length (frames stereo_clip))
                   (np_divide (samples stereo_clip) (Fin 1)) [])
              ((1 * Z.to_nat 2 + 2) / length (frames stereo_clip)) /\
  (1 * Z.to_nat 2 + 2) / length (frames stereo_clip) < channels stereo_clip.
Proof.
  apply (@window_entry_is_sample disk 3 "a.wav" 1 3 2 stereo_clip
           (np_divide (samples stereo_clip) (Fin 1))
           stereo_windows stereo_labels 1 2).
  - reflexivity.
  - repeat constructor.
  - reflexivity.
  - lia.
  - lia.
  - reflexivity.
  - reflexivity.
  - simpl. lia.
Defined.

(** ** Features of recordings that are not silent *)

Lemma np_append_rows {A} (a b r : ndarray A) :
  np_append a b = Ok r -> array_rows r = array_rows a ++ array_rows b.
Proof.
  destruct a as [ia | ca ra], b as [ib | cb rb]; simpl; try discriminate.
  - now intros [= <-].
  - destruct (ca =? cb); [| discriminate]. now intros [= <-].
Qed.

Section FeatureRows.

Variable sf_read : string -> option sound.
Variable n_classes : nat.
Variable segment_size segment_step : Z.
Variable fprefix : string.
Variable P : list fval -> Prop.

Lemma for_loop_feature_rows (items : list (string * Z)) (st : state) :
  (forall item Xt yt,
      In item items ->
      import_data sf_read n_classes (fprefix ++ fst item)%string (snd item)
                  segment_size segment_step = Ok (Xt, yt) ->
      Forall P (array_rows Xt)) ->
  Forall P (array_rows (X st)) ->
  Forall (fun st' => Forall P (array_rows (X st')))
         (fst (for_loop sf_read n_classes segment_size segment_step fprefix
                        items st)).
Proof.
  revert st. induction items as [| item rest IH]; intros st Himp Hst;
    simpl; [constructor |].
  assert (Hstep : Forall P (array_rows
                              (X (fst (loop_body sf_read n_classes segment_size
                                                 segment_step fprefix st item))))).
  { unfold loop_body. destruct item as [fname nclass].
    destruct (import_data _ _ _ nclass _ _) as [[Xt yt] |] eqn:E;
      [| exact Hst].
    destruct (np_append (X st) Xt) as [X' |] eqn:HX; [| exact Hst].
    assert (HX' : Forall P (array_rows X')).
    { rewrite (np_append_rows _ _ HX). apply Forall_app. split; [exact Hst |].
      apply (Himp (fname, nclass) Xt yt); [now left | exact E]. }
    destruct (np_append (y st) yt); exact HX'. }
  destruct (loop_body _ _ _ _ _ st item) as [st' [e |]]; simpl in *.
  - constructor; [exact Hstep | constructor].
  - assert (Himp' : forall item0 Xt yt,
               In item0 rest ->
               import_data sf_read n_classes (fprefix ++ fst item0)%string
                           (snd item0) segment_size segment_step
               = Ok (Xt, yt) ->
               Forall P (array_rows Xt)).
    { intros item0 Xt yt Hin. apply Himp. now right. }
    specialize (IH st' Himp' Hstep).
    destruct (for_loop _ _ _ _ _ rest st') as [trace e]. simpl in *.
    now constructor.
Qed.

End FeatureRows.

(** X17.  When every file of the table that can be read has a sample that
    is not zero, every entry of the feature matrix that the cell returns is
    a non-negative real number. *)
Theorem features_of_audible_recordings_nonnegative
        (sf_read : string -> option sound) (n_classes : nat)
        (segment_size segment_step : Z) (fprefix : string) (flist : dict)
        (Xf : ndarray (option R)) (yf : ndarray Z) :
  (forall item clip,
      In item (dict_items flist) ->
      sf_read (fprefix ++ fst item)%string = Some clip -> audible clip) ->
  preprocess sf_read n_classes segment_size segment_step fprefix flist
  = Ok (Xf, yf) ->
  Forall (Forall (fun e => exists r, e = Some r /\ (0 <= r)%R))
         (array_rows Xf).
Proof.
  intros Haud. unfold preprocess.
  destruct (initial_state n_classes segment_size) as [st0 |] eqn:Hinit;
    [| discriminate].
  simpl.
  assert (H0 : Forall (Forall (fun v => is_finite v = true))
                      (array_rows (X st0))).
  { unfold initial_state, np_empty0 in Hinit.
    destruct (segment_size <? 0)%Z; [discriminate |]. simpl in Hinit.
    destruct (Z.of_nat n_classes <? 0)%Z; [discriminate |]. simpl in Hinit.
    injection Hinit as <-. constructor. }
  pose proof (@for_loop_feature_rows sf_read n_classes segment_size
                segment_step fprefix (Forall (fun v => is_finite v = true))
                (dict_items flist) st0) as Hloop.
  destruct (for_loop _ _ _ _ _ (dict_items flist) st0) as [trace e].
  destruct e as [e |]; [discriminate |]. simpl in Hloop.
  assert (Hfin : Forall (Forall (fun v => is_finite v = true))
                        (array_rows (X (last trace st0)))).
  { apply (@Forall_last _ (fun st => Forall (Forall (fun v => is_finite v = true))
                                            (array_rows (X st)))).
    constructor; [exact H0 |]. apply Hloop; [| exact H0].
    intros item Xt yt Hin Himp.
    pose proof Himp as Hinv. apply import_data_inv in Hinv.
    destruct Hinv as (clip & _ & _ & Hread & _).
    specialize (Haud item clip Hin Hread).
    apply (@import_data_entries sf_read n_classes _ _ _ _ Xt yt _ Himp).
    intros clip' data Hread' Hnorm. rewrite Hread in Hread'.
    injection Hread' as <-.
    pose proof (@normalize_audible_values clip data Haud Hnorm) as Hv.
    eapply Forall_impl; [| exact Hv]. simpl. intros fr Hfr.
    eapply Forall_impl; [| exact Hfr]. simpl.
    intros v (q & -> & _). reflexivity. }
  destruct (X (last trace st0)) as [items | n rows]; simpl; [discriminate |].
  destruct (n =? 0); [discriminate |]. simpl. intros [= <- _]. simpl.
  simpl in Hfin. apply Forall_map. eapply Forall_impl; [| exact Hfin].
  simpl. intros row Hrow. now apply rfft_abs_nonneg.
Qed.

Lemma features_of_audible_recordings_nonnegative_witness :
  exists Xf yf,
    preprocess disk 3 3 2 "" [("a.wav", 1)]%string%Z = Ok (Xf, yf) /\
    shape0 Xf = 3 /\
    Forall (Forall (fun e => exists r, e = Some r /\ (0 <= r)%R))
           (array_rows Xf).
Proof.
  exists (Arr2 2 (map (rfft_abs 3) (array_rows stereo_windows))), stereo_labels.
  assert (E : preprocess disk 3 3 2 "" [("a.wav", 1)]%string%Z
              = Ok (Arr2 2 (map (rfft_abs 3) (array_rows stereo_windows)),
                    stereo_labels)) by reflexivity.
  split; [exact E |]. split; [reflexivity |].
  apply (@features_of_audible_recordings_nonnegative disk 3 3 2 ""
           [("a.wav", 1)]%string%Z
           (Arr2 2 (map (rfft_abs 3) (array_rows stereo_windows)))
           stereo_labels); [| exact E].
  intros item clip [<- | []] Hread. simpl in Hread.
  injection Hread as <-. unfold audible, stereo_clip. simpl.
  apply Exists_cons_hd, Exists_cons_hd. discriminate.
Defined.
